(** * Persona: health route and website-crawler worker

    A shallow embedding of [src/app/api/health/route.ts] and
    [src/app/api/workers/website-crawler/route.ts], with the properties the
    specification states about them.

    Conventions of the embedding.
    - A JavaScript string is the list of its code units.  Code units range
      over [ascii], that is 0..255 (the ISO-8859-1 part of UTF-16), and
      [toLowerCase], white space and the regular-expression classes are the
      ECMAScript ones on that range.
    - Awaited calls to collaborators (database, key-value store, queue,
      [fetch], the clock) are steps of a state-and-exception monad: the state
      survives a thrown value, and [try_catch] is [try { } catch (error) { }].
      What a collaborator answers is given by an environment record; every
      call is appended to a log, so that "is invoked" can be stated.
    - [console.log] and [console.error] print, and nothing reads what they
      print.  Of a log line only the evaluation of its template literal is
      kept, since converting a parsed value to a string can throw.
    - JSON numbers are the integer ones. *)

From Stdlib Require Import ZArith List Ascii String Bool Lia.
From stdpp Require Import base option list gmap strings countable.

Set Default Proof Using "Type".
Set Warnings "-register-all".
Local Open Scope Z_scope.

(** ** JavaScript values and control effects *)

Module Js.

Abbreviation jsstring := (list ascii).

(** String literals of the source are written ["..."%string] and read as
    code-unit lists. *)
Coercion list_ascii_of_string : string >-> list.

(** A thrown value: an [Error] instance with its [message], or anything
    else ([error instanceof Error] is false). *)
Inductive Thrown :=
| ThrownError (message : jsstring)
| ThrownValue.

(** [error instanceof Error ? error.message : fallback] *)
Definition error_message (fallback : jsstring) (error : Thrown) : jsstring :=
  match error with
  | ThrownError message => message
  | ThrownValue => fallback
  end.

Section Eff.
Context {St : Type}.

(** A computation either returns or throws, and leaves a state. *)
Definition Eff (A : Type) : Type := St -> (Thrown + A) * St.

Definition ret {A} (a : A) : Eff A := fun st => (inr a, st).

Definition bind {A B} (c : Eff A) (k : A -> Eff B) : Eff B :=
  fun st =>
    match c st with
    | (inr a, st') => k a st'
    | (inl e, st') => (inl e, st')
    end.

Definition try_catch {A} (body : Eff A) (handler : Thrown -> Eff A) : Eff A :=
  fun st =>
    match body st with
    | (inr a, st') => (inr a, st')
    | (inl e, st') => handler e st'
    end.

Definition lift {A} (o : Thrown + A) : Eff A := fun st => (o, st).
End Eff.

Arguments Eff : clear implicits.

Declare Scope eff_scope.
Delimit Scope eff_scope with eff.
Notation "x <~ c ;; k" := (bind c (fun x => k))
  (at level 100, c at next level, right associativity) : eff_scope.
Notation "c ;;; k" := (bind c (fun _ => k))
  (at level 100, right associativity) : eff_scope.

(** [Array.prototype.join] *)
Fixpoint join (sep : jsstring) (xs : list jsstring) : jsstring :=
  match xs with
  | [] => []
  | [x] => x
  | x :: rest => x ++ sep ++ join sep rest
  end.

(** [String.prototype.toLowerCase] on one code unit: A-Z, and the
    ISO-8859-1 capitals U+00C0..U+00DE except the multiplication sign. *)
Definition lower_unit (c : ascii) : ascii :=
  let n := N_of_ascii c in
  if ((65 <=? n) && (n <=? 90) || (192 <=? n) && (n <=? 222) && negb (n =? 215))%N
  then ascii_of_N (n + 32) else c.

Definition toLowerCase (s : jsstring) : jsstring := List.map lower_unit s.

(** WhiteSpace and LineTerminator of ECMAScript below U+0100: TAB, LF, VT,
    FF, CR, SP and NBSP.  This is the set of [trim] and of the class [\s]. *)
Definition is_space (c : ascii) : bool :=
  let n := N_of_ascii c in
  ((9 <=? n) && (n <=? 13) || (n =? 32) || (n =? 160))%N.

Fixpoint trimStart (s : jsstring) : jsstring :=
  match s with
  | c :: s' => if is_space c then trimStart s' else s
  | [] => []
  end.

Definition trimEnd (s : jsstring) : jsstring := rev (trimStart (rev s)).

(** [String.prototype.trim] *)
Definition trim (s : jsstring) : jsstring := trimEnd (trimStart s).

Fixpoint startsWith (w s : jsstring) : bool :=
  match w, s with
  | [], _ => true
  | a :: w', b :: s' => bool_decide (a = b) && startsWith w' s'
  | _ :: _, [] => false
  end.

(** [s.includes(w)] *)
Fixpoint includes (s w : jsstring) : bool :=
  startsWith w s ||
  match s with
  | [] => false
  | _ :: s' => includes s' w
  end.

(** [s.substring(0, n)] *)
Definition substring0 (n : nat) (s : jsstring) : jsstring := firstn n s.

(** [xs.slice(0, n)] *)
Definition slice0 {A} (n : nat) (xs : list A) : list A := firstn n xs.

(** [s.split(sep)] for a separator of one code unit. *)
Fixpoint split_unit (sep : ascii) (piece : jsstring) (s : jsstring) : list jsstring :=
  match s with
  | [] => [rev piece]
  | c :: s' =>
      if bool_decide (c = sep) then rev piece :: split_unit sep [] s'
      else split_unit sep (c :: piece) s'
  end.

(** [[...new Set(xs)]]: the first occurrence of each element, in order. *)
Fixpoint spread_set_from (seen : list jsstring) (xs : list jsstring) : list jsstring :=
  match xs with
  | [] => []
  | x :: rest =>
      if bool_decide (x ∈ seen) then spread_set_from seen rest
      else x :: spread_set_from (x :: seen) rest
  end.

Definition spread_set (xs : list jsstring) : list jsstring := spread_set_from [] xs.

End Js.

Import Js.

(** ** Regular expressions

    A backtracking matcher in the order ECMAScript prescribes: alternatives
    left to right, a greedy quantifier tries one more iteration before the
    continuation and a lazy one the continuation first, and an iteration of
    [*] that consumes nothing is rejected. *)

Module Regex.

Inductive regex :=
| Chr (c : ascii)                       (* a pattern character *)
| Cls (p : ascii -> bool)               (* a class or class escape *)
| Eps
| Cat (r1 r2 : regex)
| Alt (r1 r2 : regex)
| Star (greedy : bool) (r : regex)      (* r* and r*? *)
| Group (r : regex)                     (* the capturing group *)
| WordB.                                (* \b *)

Infix ">>>" := Cat (at level 60, right associativity).

(** r+ *)
Definition Plus (r : regex) : regex := r >>> Star true r.

(** The characters of a literal, in sequence. *)
Definition lit (s : jsstring) : regex := fold_right (fun c r => Chr c >>> r) Eps s.

(** A disjunction of literals. *)
Fixpoint alts (ws : list jsstring) : regex :=
  match ws with
  | [] => Cls (fun _ => false)
  | [w] => lit w
  | w :: rest => Alt (lit w) (alts rest)
  end.

(** Canonicalize of a pattern without the [u] flag: with [i] the upper-case
    form when that is one code unit, and never from U+0080 and above into
    ASCII.  On 0..255: a-z, and U+00E0..U+00FE except the division sign
    (the capitals of U+00B5 and U+00FF lie above U+00FF, where nothing else
    of the range is mapped, so these two stay). *)
Definition canonicalize (ignoreCase : bool) (c : ascii) : ascii :=
  let n := N_of_ascii c in
  if ignoreCase &&
     ((97 <=? n) && (n <=? 122) || (224 <=? n) && (n <=? 254) && negb (n =? 247))%N
  then ascii_of_N (n - 32) else c.

(** The word characters of [\b]: [A-Za-z0-9_]. *)
Definition is_word (c : ascii) : bool :=
  let n := N_of_ascii c in
  ((48 <=? n) && (n <=? 57) || (65 <=? n) && (n <=? 90)
   || (97 <=? n) && (n <=? 122) || (n =? 95))%N.

Definition is_word_at (c : option ascii) : bool :=
  match c with
  | Some c => is_word c
  | None => false
  end.

(** Where a match stands: the unit before the position, the input left,
    and what the group captured. *)
Record mstate := { prev : option ascii; rest : jsstring; cap : option jsstring }.

Definition cont := mstate -> option mstate.

Definition advance (st : mstate) (x : ascii) (s' : jsstring) : mstate :=
  {| prev := Some x; rest := s'; cap := cap st |}.

(** The iterations of a quantifier.  Every iteration shortens the input, so
    [fuel], which starts at the length of the input, is never what stops it. *)
Fixpoint star_loop (m : mstate -> cont -> option mstate) (greedy : bool)
    (fuel : nat) (st : mstate) (k : cont) : option mstate :=
  let again (_ : unit) :=
    match fuel with
    | O => None
    | S fuel' =>
        m st (fun st' =>
                if (length (rest st') <? length (rest st))%nat
                then star_loop m greedy fuel' st' k else None)
    end in
  if greedy then
    match again tt with
    | Some res => Some res
    | None => k st
    end
  else
    match k st with
    | Some res => Some res
    | None => again tt
    end.

Fixpoint run (ignoreCase : bool) (r : regex) (st : mstate) (k : cont) : option mstate :=
  match r with
  | Chr c =>
      match rest st with
      | x :: s' =>
          if bool_decide (canonicalize ignoreCase x = canonicalize ignoreCase c)
          then k (advance st x s') else None
      | [] => None
      end
  | Cls p =>
      match rest st with
      | x :: s' => if p x then k (advance st x s') else None
      | [] => None
      end
  | Eps => k st
  | Cat r1 r2 => run ignoreCase r1 st (fun st' => run ignoreCase r2 st' k)
  | Alt r1 r2 =>
      match run ignoreCase r1 st k with
      | Some res => Some res
      | None => run ignoreCase r2 st k
      end
  | Star greedy r' => star_loop (run ignoreCase r') greedy (length (rest st)) st k
  | Group r' =>
      run ignoreCase r' st
        (fun st' =>
           k {| prev := prev st'; rest := rest st';
                cap := Some (firstn (length (rest st) - length (rest st')) (rest st)) |})
  | WordB =>
      if xorb (is_word_at (prev st)) (is_word_at (head (rest st)))
      then k st else None
  end.

(** A match starting exactly here: its length and its capture. *)
Definition exec (ignoreCase : bool) (r : regex) (prev : option ascii) (s : jsstring)
  : option (nat * option jsstring) :=
  match run ignoreCase r {| prev := prev; rest := s; cap := None |} Some with
  | Some st' => Some ((length s - length (rest st'))%nat, cap st')
  | None => None
  end.

(** [s.replace(/r/g, repl)]; [skip] counts the units of the current match
    still to pass over. *)
Fixpoint replace_from (ignoreCase : bool) (r : regex) (repl : jsstring)
    (skip : nat) (prev : option ascii) (s : jsstring) : jsstring :=
  match s with
  | [] =>
      match skip, exec ignoreCase r prev [] with
      | O, Some _ => repl
      | _, _ => []
      end
  | c :: s' =>
      match skip with
      | S skip' => replace_from ignoreCase r repl skip' (Some c) s'
      | O =>
          match exec ignoreCase r prev s with
          | Some (S n, _) => repl ++ replace_from ignoreCase r repl n (Some c) s'
          | Some (O, _) => repl ++ c :: replace_from ignoreCase r repl O (Some c) s'
          | None => c :: replace_from ignoreCase r repl O (Some c) s'
          end
      end
  end.

Definition replace_all (ignoreCase : bool) (r : regex) (repl s : jsstring) : jsstring :=
  replace_from ignoreCase r repl O None s.

(** [s.match(/r/g) || []]: the matched substrings, left to right. *)
Fixpoint match_all_from (ignoreCase : bool) (r : regex)
    (skip : nat) (prev : option ascii) (s : jsstring) : list jsstring :=
  match s with
  | [] =>
      match skip, exec ignoreCase r prev [] with
      | O, Some _ => [[]]
      | _, _ => []
      end
  | c :: s' =>
      match skip with
      | S skip' => match_all_from ignoreCase r skip' (Some c) s'
      | O =>
          match exec ignoreCase r prev s with
          | Some (S n, _) => firstn (S n) s :: match_all_from ignoreCase r n (Some c) s'
          | Some (O, _) => [] :: match_all_from ignoreCase r O (Some c) s'
          | None => match_all_from ignoreCase r O (Some c) s'
          end
      end
  end.

Definition match_all (ignoreCase : bool) (r : regex) (s : jsstring) : list jsstring :=
  match_all_from ignoreCase r O None s.

(** [s.match(/r/)]: the leftmost match, as the matched text and the capture. *)
Fixpoint match_first_from (ignoreCase : bool) (r : regex)
    (prev : option ascii) (s : jsstring) : option (jsstring * option jsstring) :=
  match exec ignoreCase r prev s with
  | Some (n, g) => Some (firstn n s, g)
  | None =>
      match s with
      | [] => None
      | c :: s' => match_first_from ignoreCase r (Some c) s'
      end
  end.

Definition match_first (ignoreCase : bool) (r : regex) (s : jsstring) :=
  match_first_from ignoreCase r None s.

(** [s.split(/r/)] for a pattern without groups: [piece] is the text since
    the last separator, reversed. *)
Fixpoint split_from (ignoreCase : bool) (r : regex)
    (skip : nat) (prev : option ascii) (piece : jsstring) (s : jsstring) : list jsstring :=
  match s with
  | [] => [rev piece]
  | c :: s' =>
      match skip with
      | S skip' => split_from ignoreCase r skip' (Some c) piece s'
      | O =>
          match exec ignoreCase r prev s, piece with
          | Some (S n, _), _ => rev piece :: split_from ignoreCase r n (Some c) [] s'
          | Some (O, _), _ :: _ => rev piece :: split_from ignoreCase r O (Some c) [c] s'
          | _, _ => split_from ignoreCase r O (Some c) (c :: piece) s'
          end
      end
  end.

Definition split (ignoreCase : bool) (r : regex) (s : jsstring) : list jsstring :=
  match s, exec ignoreCase r None [] with
  | [], Some _ => []
  | _, _ => split_from ignoreCase r O None [] s
  end.

End Regex.

(** ** [src/app/api/health/route.ts] *)

Module Health.

Section Route.
(** The shape of what [Queue.getQueueStats] resolves to is not used. *)
Context {Stats : Type}.

(** The collaborators of the route, as one run observes them. *)
Record Env := {
  sql_select1 : Thrown + unit;            (* await sql`SELECT 1` *)
  kv_ping : Thrown + unit;                (* await kv.ping() *)
  getQueueStats : Thrown + Stats;         (* await Queue.getQueueStats() *)
  process_env : jsstring -> option jsstring;
  processRetryableJobs : Thrown + unit;   (* await Queue.processRetryableJobs() *)
  triggerProcessing : Thrown + unit;      (* await Queue.triggerProcessing() *)
  clock : nat -> Z;                       (* the n-th reading of the clock, ms *)
  toISOString : Z -> jsstring
}.

Inductive Call :=
| CallSql | CallKvPing | CallGetQueueStats
| CallProcessRetryableJobs | CallTriggerProcessing.

Record St := { readings : nat; calls : list Call }.

Definition st0 : St := {| readings := 0; calls := [] |}.

Variable env : Env.

Definition invoke {A} (c : Call) (answer : Thrown + A) : Eff St A :=
  fun st => (answer, {| readings := readings st; calls := calls st ++ [c] |}).

(** [Date.now()] *)
Definition Date_now : Eff St Z :=
  fun st => (inr (clock env (readings st)),
             {| readings := S (readings st); calls := calls st |}).

(** [new Date().toISOString()] *)
Definition Date_toISOString : Eff St jsstring :=
  (t <~ Date_now ;; ret (toISOString env t))%eff.

Record TimedCheck := {
  tc_status : jsstring; tc_message : jsstring; tc_responseTime : Z }.
Record QueueCheck := {
  qc_status : jsstring; qc_message : jsstring; qc_stats : option Stats }.
Record EnvCheck := {
  ec_status : jsstring; ec_message : jsstring; ec_missing : list jsstring }.

Record Checks := {
  database : TimedCheck;
  redis : TimedCheck;
  queue : QueueCheck;
  environment : EnvCheck
}.

Record Summary := { healthy : Z; total : Z }.

Record Document := {
  timestamp : jsstring;
  status : jsstring;
  checks : Checks;
  summary : Summary
}.

Record Response := { statusCode : Z; body : Document }.

Definition requiredEnvVars : list jsstring :=
  [ "POSTGRES_URL"%string : jsstring; "KV_URL"%string : jsstring;
    "OPENAI_API_KEY"%string : jsstring; "SCRAPEOWL_API_KEY"%string : jsstring;
    "BLOB_READ_WRITE_TOKEN"%string : jsstring ].

(** [!process.env[varName]]: undefined or the empty string. *)
Definition env_missing (varName : jsstring) : bool :=
  match process_env env varName with
  | None | Some [] => true
  | Some (_ :: _) => false
  end.

Definition is_healthy (s : jsstring) : bool :=
  bool_decide (s = ("healthy"%string : jsstring)).

(** [Object.values(checks.checks)], reduced to the [status] the filter reads. *)
Definition check_statuses (c : Checks) : list jsstring :=
  [ tc_status (database c); tc_status (redis c);
    qc_status (queue c); ec_status (environment c) ].

Definition database_check : Eff St TimedCheck :=
  try_catch
    (dbStart <~ Date_now ;;
     invoke CallSql (sql_select1 env) ;;;
     dbEnd <~ Date_now ;;
     ret {| tc_status := "healthy"%string;
            tc_message := "Database connection successful"%string;
            tc_responseTime := dbEnd - dbStart |})%eff
    (fun error =>
       let errorMessage := error_message "Unknown database error"%string error in
       ret {| tc_status := "unhealthy"%string;
              tc_message := ("Database error: "%string : jsstring) ++ errorMessage;
              tc_responseTime := 0 |}).

Definition redis_check : Eff St TimedCheck :=
  try_catch
    (kvStart <~ Date_now ;;
     invoke CallKvPing (kv_ping env) ;;;
     kvEnd <~ Date_now ;;
     ret {| tc_status := "healthy"%string;
            tc_message := "Redis connection successful"%string;
            tc_responseTime := kvEnd - kvStart |})%eff
    (fun error =>
       let errorMessage := error_message "Unknown Redis error"%string error in
       ret {| tc_status := "unhealthy"%string;
              tc_message := ("Redis error: "%string : jsstring) ++ errorMessage;
              tc_responseTime := 0 |}).

Definition queue_check : Eff St QueueCheck :=
  try_catch
    (stats <~ invoke CallGetQueueStats (getQueueStats env) ;;
     ret {| qc_status := "healthy"%string;
            qc_message := "Queue system operational"%string;
            qc_stats := Some stats |})%eff
    (fun error =>
       let errorMessage := error_message "Unknown queue error"%string error in
       ret {| qc_status := "unhealthy"%string;
              qc_message := ("Queue error: "%string : jsstring) ++ errorMessage;
              qc_stats := None |}).

Definition environment_check : EnvCheck :=
  let missingEnvVars := List.filter env_missing requiredEnvVars in
  if (Z.of_nat (length missingEnvVars) =? 0) then
    {| ec_status := "healthy"%string;
       ec_message := "All required environment variables present"%string;
       ec_missing := [] |}
  else
    {| ec_status := "unhealthy"%string;
       ec_message := ("Missing environment variables: "%string : jsstring)
                       ++ join ", "%string missingEnvVars;
       ec_missing := missingEnvVars |}.

(** The overall status, from the number of healthy checks. *)
Definition overall (healthyChecks total : Z) : jsstring :=
  if healthyChecks =? total then "healthy"%string
  else if 0 <? healthyChecks then "degraded"%string
  else "unhealthy"%string.

Definition status_code (status : jsstring) : Z :=
  if bool_decide (status = ("healthy"%string : jsstring)) then 200
  else if bool_decide (status = ("degraded"%string : jsstring)) then 207
  else 503.

Definition GET : Eff St Response :=
  (ts <~ Date_toISOString ;;
   db <~ database_check ;;
   kv <~ redis_check ;;
   q <~ queue_check ;;
   let cs := {| database := db; redis := kv; queue := q;
                environment := environment_check |} in
   let healthyChecks :=
     Z.of_nat (length (List.filter is_healthy (check_statuses cs))) in
   let total := 4 in
   let status := overall healthyChecks total in
   ret {| statusCode := status_code status;
          body := {| timestamp := ts; status := status; checks := cs;
                     summary := {| healthy := healthyChecks; total := total |} |} |})%eff.

(** The body of the maintenance response. *)
Inductive Maintenance :=
| MaintenanceDone (success : bool) (message : jsstring) (timestamp : jsstring)
| MaintenanceFailed (error : jsstring) (details : jsstring) (timestamp : jsstring).

Record MaintenanceResponse := { m_statusCode : Z; m_body : Maintenance }.

Definition POST : Eff St MaintenanceResponse :=
  try_catch
    (invoke CallProcessRetryableJobs (processRetryableJobs env) ;;;
     invoke CallTriggerProcessing (triggerProcessing env) ;;;
     ts <~ Date_toISOString ;;
     ret {| m_statusCode := 200;
            m_body := MaintenanceDone true "System maintenance completed"%string ts |})%eff
    (fun error =>
       let errorMessage := error_message "Unknown maintenance error"%string error in
       (ts <~ Date_toISOString ;;
        ret {| m_statusCode := 500;
               m_body := MaintenanceFailed "System maintenance failed"%string
                           errorMessage ts |})%eff).
End Route.

Arguments Env : clear implicits.

End Health.

(** ** [src/app/api/workers/website-crawler/route.ts]: text analysis *)

Module Crawler.

Import Regex.

Definition not_unit (x : ascii) : ascii -> bool := fun c => negb (bool_decide (c = x)).

(** [[\s\S]] *)
Definition any_unit : ascii -> bool := fun _ => true.

(** [/<script[^>]*>[\s\S]*?<\/script>/gi] *)
Definition re_script : regex :=
  lit "<script"%string >>> Star true (Cls (not_unit ">")) >>> Chr ">"
  >>> Star false (Cls any_unit) >>> lit "</script>"%string.

(** [/<style[^>]*>[\s\S]*?<\/style>/gi] *)
Definition re_style : regex :=
  lit "<style"%string >>> Star true (Cls (not_unit ">")) >>> Chr ">"
  >>> Star false (Cls any_unit) >>> lit "</style>"%string.

(** [/<[^>]*>/g] *)
Definition re_tag : regex := Chr "<" >>> Star true (Cls (not_unit ">")) >>> Chr ">".

(** [/\s+/g] *)
Definition re_spaces : regex := Plus (Cls is_space).

(** [/<title[^>]*>([^<]+)<\/title>/i] *)
Definition re_title : regex :=
  lit "<title"%string >>> Star true (Cls (not_unit ">")) >>> Chr ">"
  >>> Group (Plus (Cls (not_unit "<"))) >>> lit "</title>"%string.

(** [/[.!?]+/] *)
Definition re_sentence_end : regex :=
  Plus (Cls (fun c => bool_decide (c = "."%char) || bool_decide (c = "!"%char)
                      || bool_decide (c = "?"%char))).

Definition productTermList : list jsstring :=
  [ "grounding"%string : jsstring; "earthing"%string : jsstring;
    "conductive"%string : jsstring; "organic"%string : jsstring;
    "cotton"%string : jsstring; "silver"%string : jsstring;
    "copper"%string : jsstring; "sheet"%string : jsstring;
    "mat"%string : jsstring; "pad"%string : jsstring;
    "wellness"%string : jsstring; "sleep"%string : jsstring;
    "health"%string : jsstring; "natural"%string : jsstring;
    "therapy"%string : jsstring; "healing"%string : jsstring ].

(** [/\b(grounding|earthing|...|healing)\b/gi] *)
Definition re_product_terms : regex := WordB >>> Group (alts productTermList) >>> WordB.

Definition extractTextFromHTML (html : jsstring) : jsstring :=
  (* Remove script and style tags completely *)
  let text := replace_all true re_script [] html in
  let text := replace_all true re_style [] text in
  (* Remove HTML tags but keep the text *)
  let text := replace_all false re_tag " "%string text in
  (* Clean up whitespace *)
  let text := trim (replace_all false re_spaces " "%string text) in
  (* Decode HTML entities *)
  let text := replace_all false (lit "&nbsp;"%string) " "%string text in
  let text := replace_all false (lit "&amp;"%string) "&"%string text in
  let text := replace_all false (lit "&lt;"%string) "<"%string text in
  let text := replace_all false (lit "&gt;"%string) ">"%string text in
  let text := replace_all false (lit "&quot;"%string) ["034"%char] text in
  let text := replace_all false (lit "&#39;"%string) "'"%string text in
  text.

(** A match of [re_title] always defines its group ([re_title_captures]
    below), so the middle case does not arise. *)
Definition extractTitle (html : jsstring) : jsstring :=
  match match_first true re_title html with
  | Some (_, Some group1) => trim group1
  | Some (_, None) => []
  | None => "Unknown Title"%string
  end.

(** The [forEach] that pushes the trimmed sentence under a condition is a
    filter followed by a map. *)
Definition extractSentencesWithWords (content : jsstring) (targetWords : list jsstring)
  : list jsstring :=
  let sentences :=
    List.filter (fun s => (20 <? length (trim s))%nat)
                (split false re_sentence_end content) in
  let matchingSentences :=
    List.map trim
      (List.filter
         (fun sentence =>
            let sentenceLower := toLowerCase sentence in
            let hasTargetWord :=
              existsb (fun word => includes sentenceLower (toLowerCase word)) targetWords in
            hasTargetWord && (30 <? length (trim sentence))%nat
            && (length (trim sentence) <? 200)%nat)
         sentences) in
  spread_set matchingSentences.

Definition extractImportantWords (content : jsstring) (targetKeywords : list jsstring)
  : list jsstring :=
  (* Look for product-related terms *)
  let productTerms := match_all true re_product_terms content in
  (* Clean and deduplicate *)
  let uniqueTerms := spread_set (List.map toLowerCase productTerms) in
  slice0 10 uniqueTerms.

Record Analysis := {
  a_valuePropositions : list jsstring;
  a_features : list jsstring;
  a_benefits : list jsstring;
  a_keywords : list jsstring
}.

Definition valueWords : list jsstring :=
  [ "best"%string : jsstring; "premium"%string : jsstring; "quality"%string : jsstring;
    "effective"%string : jsstring; "proven"%string : jsstring;
    "guaranteed"%string : jsstring; "certified"%string : jsstring;
    "natural"%string : jsstring; "safe"%string : jsstring;
    "scientifically"%string : jsstring; "clinically"%string : jsstring ].

Definition featureWords : list jsstring :=
  [ "made"%string : jsstring; "includes"%string : jsstring; "features"%string : jsstring;
    "comes with"%string : jsstring; "designed"%string : jsstring;
    "built"%string : jsstring; "contains"%string : jsstring;
    "material"%string : jsstring; "size"%string : jsstring;
    "dimensions"%string : jsstring ].

Definition benefitWords : list jsstring :=
  [ "helps"%string : jsstring; "improves"%string : jsstring; "reduces"%string : jsstring;
    "increases"%string : jsstring; "better"%string : jsstring; "relief"%string : jsstring;
    "sleep"%string : jsstring; "health"%string : jsstring; "wellness"%string : jsstring;
    "benefits"%string : jsstring; "feel"%string : jsstring ].

Definition analyzeWebsiteContent (content : jsstring) (targetKeywords : list jsstring)
  : Analysis :=
  let contentLower := toLowerCase content in
  let valuePropositions := slice0 8 (extractSentencesWithWords content valueWords) in
  let features := slice0 10 (extractSentencesWithWords content featureWords) in
  let benefits := slice0 10 (extractSentencesWithWords content benefitWords) in
  (* Find keyword mentions *)
  let foundKeywords :=
    List.filter (fun keyword => includes contentLower (toLowerCase keyword))
                targetKeywords in
  (* Extract additional relevant keywords *)
  let additionalKeywords := extractImportantWords content targetKeywords in
  {| a_valuePropositions := valuePropositions;
     a_features := features;
     a_benefits := benefits;
     a_keywords := slice0 15 (foundKeywords ++ additionalKeywords) |}.

(** *** Values out of [request.json()] *)

Inductive JsVal :=
| Undefined
| Null
| JBool (b : bool)
| JNum (n : Z)
| JStr (s : jsstring)
| JArr (items : list JsVal)
| JObj (fields : list (jsstring * JsVal)).

(** [!!v] *)
Definition truthy (v : JsVal) : bool :=
  match v with
  | Undefined | Null => false
  | JBool b => b
  | JNum n => negb (n =? 0)
  | JStr s => negb (bool_decide (s = []))
  | JArr _ | JObj _ => true
  end.

(** The own property [key] of a parsed object; a key written twice in the
    JSON text keeps its last value. *)
Fixpoint own_prop (fields : list (jsstring * JsVal)) (key : jsstring) : JsVal :=
  match fields with
  | [] => Undefined
  | (k, v) :: rest =>
      match own_prop rest key with
      | Undefined => if bool_decide (k = key) then v else Undefined
      | later => later
      end
  end.

(** [v.key] for the keys the handler reads, on a value that is not [null]:
    only an object has them. *)
Definition get_prop (v : JsVal) (key : jsstring) : JsVal :=
  match v with
  | JObj fields => own_prop fields key
  | _ => Undefined
  end.

(** A [TypeError] of the runtime. *)
Definition TypeError (message : jsstring) : Thrown := ThrownError message.

(** [const { jobId, websiteUrl, targetKeywords } = v]; the message is V8's. *)
Definition destructure (v : JsVal) : Thrown + (JsVal * JsVal * JsVal) :=
  match v with
  | Undefined | Null =>
      inl (TypeError "Cannot destructure property 'jobId' of '(intermediate value)' as it is null."%string)
  | _ => inr (get_prop v "jobId"%string, get_prop v "websiteUrl"%string,
              get_prop v "targetKeywords"%string)
  end.

Definition as_string (v : JsVal) : option jsstring :=
  match v with
  | JStr s => Some s
  | _ => None
  end.

(** An array all of whose elements are strings. *)
Definition as_string_array (v : JsVal) : option (list jsstring) :=
  match v with
  | JArr items => mapM as_string items
  | _ => None
  end.

(** Whether a parsed object has the own property [key]. *)
Definition has_own_prop (fields : list (jsstring * JsVal)) (key : jsstring) : bool :=
  existsb (fun kv => bool_decide (fst kv = key)) fields.

(** Whether the conversion of a parsed value to a string returns; otherwise
    it throws a [TypeError].  A parsed object inherits
    [Object.prototype.toString], which returns; an own property [toString]
    hides it and, being a parsed value, is not callable, so that the
    conversion goes on to [valueOf], which is not callable either or is
    [Object.prototype.valueOf] and returns the object, and throws.  An array
    is joined, its elements converted in turn ([null] gives the empty
    string).  Every other value converts. *)
Fixpoint stringifies (v : JsVal) : bool :=
  match v with
  | JObj fields => negb (has_own_prop fields "toString"%string)
  | JArr items => forallb stringifies items
  | Undefined | Null | JBool _ | JNum _ | JStr _ => true
  end.

(** A template literal with the substitutions [${v1}], [${v2}], ..., as far
    as the program observes it: the substitutions are converted to strings
    in turn; the message is V8's. *)
Definition template_literal (substitutions : list JsVal) : Thrown + unit :=
  if forallb stringifies substitutions then inr tt
  else inl (TypeError "Cannot convert object to primitive value"%string).

(** Encoding into stdpp's generic trees, for equality and countability. *)
Definition enc_leaf : Type := (bool + Z + jsstring)%type.

Fixpoint enc (v : JsVal) : gen_tree enc_leaf :=
  match v with
  | Undefined => GenNode 0 []
  | Null => GenNode 1 []
  | JBool b => GenLeaf (inl (inl b))
  | JNum n => GenLeaf (inl (inr n))
  | JStr s => GenLeaf (inr s)
  | JArr items => GenNode 2 (List.map enc items)
  | JObj fields =>
      GenNode 3 (List.map (fun kv => match kv with
                                     | (k, v') => GenNode 4 [GenLeaf (inr k); enc v']
                                     end) fields)
  end.

Fixpoint dec (t : gen_tree enc_leaf) : JsVal :=
  match t with
  | GenLeaf (inl (inl b)) => JBool b
  | GenLeaf (inl (inr n)) => JNum n
  | GenLeaf (inr s) => JStr s
  | GenNode 0 _ => Undefined
  | GenNode 1 _ => Null
  | GenNode 2 ts => JArr (List.map dec ts)
  | GenNode 3 ts =>
      JObj (List.map (fun t' => match t' with
                                | GenNode _ [GenLeaf (inr k); tv] => (k, dec tv)
                                | _ => ([], Undefined)
                                end) ts)
  | GenNode _ _ => Undefined
  end.

Lemma dec_enc (v : JsVal) : dec (enc v) = v.
Proof.
  revert v. fix IH 1. intros [| | b | n | s | items | fields]; simpl; try reflexivity.
  - f_equal. induction items as [|x items IHl]; simpl; [reflexivity|].
    rewrite IH, IHl. reflexivity.
  - f_equal. induction fields as [|[k x] fields IHl]; simpl; [reflexivity|].
    rewrite IH, IHl. reflexivity.
Qed.

#[global] Instance JsVal_eq_dec : EqDecision JsVal.
Proof.
  intros x y. destruct (decide (enc x = enc y)) as [H|H].
  - left. rewrite <- (dec_enc x), <- (dec_enc y), H. reflexivity.
  - right. intros ->. apply H. reflexivity.
Defined.

#[global] Instance JsVal_countable : Countable JsVal :=
  inj_countable' enc dec dec_enc.

(** *** The collector and its endpoint *)

Record Metadata := {
  md_timestamp : jsstring;
  md_contentLength : Z;
  md_extractionMethod : jsstring
}.

Record WebsiteData := {
  url : JsVal;
  title : jsstring;
  content : jsstring;
  valuePropositions : list jsstring;
  features : list jsstring;
  benefits : list jsstring;
  keywords : list jsstring;
  metadata : Metadata
}.

(** What the endpoint hands to [saveJobData]: the collected data, or
    [{ url, error, metadata: { timestamp } }]. *)
Inductive JobData :=
| Collected (data : WebsiteData)
| CrawlError (url : JsVal) (error : jsstring) (timestamp : jsstring).

(** What [fetch] resolves to, as far as it is read. *)
Record FetchResponse := {
  ok : bool;
  status : Z;
  text : Thrown + jsstring                 (* await response.text() *)
}.

(** The network and the clock, as one run observes them. *)
Record Env := {
  fetch : JsVal -> Thrown + FetchResponse;  (* await fetch(websiteUrl, ...) *)
  clock : nat -> Z;
  toISOString : Z -> jsstring
}.

(** [updateJobStatus] and [saveJobData] as imported from [@/lib/db]:
    each answers or throws, and acts on the state of the database. *)
Class JobDb (D : Type) := {
  updateJobStatus : JsVal -> jsstring -> Eff D unit;
  saveJobData : JsVal -> jsstring -> JobData -> Eff D unit
}.

Inductive Call :=
| CallRequestJson
| CallUpdateJobStatus (jobId : JsVal) (status : jsstring)
| CallSaveJobData (jobId : JsVal) (dataType : jsstring) (data : JobData)
| CallFetch (websiteUrl : JsVal)
| CallResponseText.

Record World (D : Type) := {
  db : D;
  readings : nat;
  calls : list Call
}.

Arguments db {D} _.
Arguments readings {D} _.
Arguments calls {D} _.

Definition world0 {D} (s : D) : World D := {| db := s; readings := 0; calls := [] |}.

Definition log {D} (c : Call) (w : World D) : World D :=
  {| db := db w; readings := readings w; calls := calls w ++ [c] |}.

(** A call that does not touch the database. *)
Definition invoke {D A} (c : Call) (answer : Thrown + A) : Eff (World D) A :=
  fun w => (answer, log c w).

(** A call into [@/lib/db]. *)
Definition db_call {D A} (c : Call) (op : Eff D A) : Eff (World D) A :=
  fun w =>
    match op (db w) with
    | (answer, s') =>
        (answer, {| db := s'; readings := readings w; calls := calls w ++ [c] |})
    end.

Definition Date_now {D} (env : Env) : Eff (World D) Z :=
  fun w => (inr (clock env (readings w)),
            {| db := db w; readings := S (readings w); calls := calls w |}).

(** [new Date().toISOString()] *)
Definition Date_toISOString {D} (env : Env) : Eff (World D) jsstring :=
  (t <~ Date_now env ;; ret (toISOString env t))%eff.

(** [console.log(`...${v1}...${v2}...`)]: what is printed is read by
    nothing, and the evaluation of the argument can throw.  Substitutions
    that are numbers (lengths, [response.status]) always convert and are left
    out. *)
Definition console_log {D} (substitutions : list JsVal) : Eff (World D) unit :=
  lift (template_literal substitutions).

(** [analyzeWebsiteContent] on the value the endpoint passes for
    [targetKeywords]: [forEach] and [toLowerCase] exist when it is an array
    of strings, and the call throws a [TypeError] otherwise. *)
Definition analyze_keywords (textContent : jsstring) (targetKeywords : JsVal)
  : Thrown + Analysis :=
  match as_string_array targetKeywords with
  | Some kws => inr (analyzeWebsiteContent textContent kws)
  | None => inl (TypeError "targetKeywords.forEach is not a function"%string)
  end.

Definition crawlWebsiteDirectly {D} (env : Env) (websiteUrl targetKeywords : JsVal)
  : Eff (World D) (option WebsiteData) :=
  try_catch
    (console_log [websiteUrl] ;;;
     response <~ invoke (CallFetch websiteUrl) (fetch env websiteUrl) ;;
     if negb (ok response) then ret None
     else
       html <~ invoke CallResponseText (text response) ;;
       (* Extract text content from HTML *)
       let textContent := extractTextFromHTML html in
       let title := extractTitle html in
       (* Analyze content for key information *)
       analysis <~ lift (analyze_keywords textContent targetKeywords) ;;
       timestamp <~ Date_toISOString env ;;
       ret (Some {| url := websiteUrl;
                    title := title;
                    content := substring0 5000 textContent;
                    valuePropositions := a_valuePropositions analysis;
                    features := a_features analysis;
                    benefits := a_benefits analysis;
                    keywords := a_keywords analysis;
                    metadata := {| md_timestamp := timestamp;
                                   md_contentLength := Z.of_nat (length textContent);
                                   md_extractionMethod := "direct_fetch"%string |} |}))%eff
    (fun error => ret None).

Record CrawlSummary := {
  s_url : JsVal;
  s_title : jsstring;
  s_contentLength : Z;
  s_valuePropositions : Z;
  s_features : Z;
  s_benefits : Z;
  s_keywords : Z;
  s_preview : jsstring
}.

(** The JSON bodies the endpoint answers with. *)
Inductive Body :=
| Required (error : jsstring)
| NoData (success : bool) (message : jsstring) (url : JsVal) (contentLength : Z)
| Completed (success : bool) (message : jsstring) (data : CrawlSummary)
| CrawlFailed (error : jsstring) (details : jsstring).

Record Response := { statusCode : Z; body : Body }.

(** [typeof targetKeywords === 'string'
      ? targetKeywords.split(',').map(k => k.trim()) : targetKeywords || []] *)
Definition parse_keywords (targetKeywords : JsVal) : JsVal :=
  match targetKeywords with
  | JStr s => JArr (List.map (fun k => JStr (trim k)) (split_unit "," [] s))
  | _ => if truthy targetKeywords then targetKeywords else JArr []
  end.

Definition POST {D} `{JobDb D} (env : Env) (request_json : Thrown + JsVal)
  : Eff (World D) Response :=
  try_catch
    (parsed <~ invoke CallRequestJson request_json ;;
     fields <~ lift (destructure parsed) ;;
     match fields with
     | (jobId, websiteUrl, targetKeywords) =>
       if negb (truthy jobId) || negb (truthy websiteUrl) then
         ret {| statusCode := 400;
                body := Required "Job ID and website URL are required"%string |}
       else
         console_log [jobId; websiteUrl] ;;;
         db_call (CallUpdateJobStatus jobId "processing"%string)
                 (updateJobStatus jobId "processing"%string) ;;;
         (* Parse keywords *)
         let parsedKeywords := parse_keywords targetKeywords in
         (* Crawl the website directly *)
         websiteData <~ crawlWebsiteDirectly env websiteUrl parsedKeywords ;;
         match websiteData with
         | None =>
             timestamp <~ Date_toISOString env ;;
             let record := CrawlError websiteUrl "Failed to crawl website"%string timestamp in
             db_call (CallSaveJobData jobId "website"%string record)
                     (saveJobData jobId "website"%string record) ;;;
             ret {| statusCode := 200;
                    body := NoData true "Website crawl completed (no data collected)"%string
                                   websiteUrl 0 |}
         | Some websiteData =>
             (* Save the website data *)
             db_call (CallSaveJobData jobId "website"%string (Collected websiteData))
                     (saveJobData jobId "website"%string (Collected websiteData)) ;;;
             console_log [jobId] ;;;
             ret {| statusCode := 200;
                    body := Completed true "Website crawl completed successfully"%string
                      {| s_url := websiteUrl;
                         s_title := title websiteData;
                         s_contentLength := Z.of_nat (length (content websiteData));
                         s_valuePropositions := Z.of_nat (length (valuePropositions websiteData));
                         s_features := Z.of_nat (length (features websiteData));
                         s_benefits := Z.of_nat (length (benefits websiteData));
                         s_keywords := Z.of_nat (length (keywords websiteData));
                         s_preview := substring0 200 (content websiteData)
                                        ++ ("..."%string : jsstring) |} |}
         end
     end)%eff
    (fun error =>
       let errorMessage := error_message "Unknown error"%string error in
       ret {| statusCode := 500;
              body := CrawlFailed "Website crawl failed"%string errorMessage |}).

(** *** The job store

    Modelled from the spec: [updateJobStatus] and [saveJobData] of
    [@/lib/db] are not among the sources.  The spec's JobStore is a durable
    record of job metadata and of per-source data blobs: a Job has a
    [status], one of [pending], [processing], [completed] and [failed], that
    moves only forward through pending, processing, then completed or failed,
    never backward and never past [processing]; a JobDataRecord is keyed by
    (job id, source name), and a later write for the same key overwrites the
    earlier one, without merge.  A task must be safe to run more than once,
    so a status write that is no forward step returns and changes nothing.
    The status write acts on the record of an existing job. *)

Record Store := {
  jobs : gmap JsVal jsstring;                     (* job id to status *)
  jobData : gmap (JsVal * jsstring) JobData       (* (job id, source name) to record *)
}.

(** Modelled from the spec: the forward steps of a status. *)
Definition forward_step (current next : jsstring) : bool :=
  (bool_decide (current = "pending"%string) && bool_decide (next = "processing"%string))
  || (bool_decide (current = "processing"%string)
      && (bool_decide (next = "completed"%string) || bool_decide (next = "failed"%string))).

(** Modelled from the spec: the status after a request for [next]. *)
Definition advance_status (next current : jsstring) : jsstring :=
  if forward_step current next then next else current.

(** Modelled from the spec: [updateJobStatus] of [@/lib/db], the status
    write on an existing job, forward-only. *)
Definition store_updateJobStatus (jobId : JsVal) (status : jsstring) : Eff Store unit :=
  fun s => (inr tt, {| jobs := alter (advance_status status) jobId (jobs s);
                       jobData := jobData s |}).

(** Modelled from the spec: [saveJobData] of [@/lib/db], the write of the
    record under (job id, source name), replacing an earlier one. *)
Definition store_saveJobData (jobId : JsVal) (dataType : jsstring) (data : JobData)
  : Eff Store unit :=
  fun s => (inr tt, {| jobs := jobs s;
                       jobData := <[(jobId, dataType) := data]> (jobData s) |}).

#[global] Instance Store_JobDb : JobDb Store := {|
  updateJobStatus := store_updateJobStatus;
  saveJobData := store_saveJobData
|}.

(** What a run of the endpoint leaves in the store, and what it answers. *)
Definition run_POST (env : Env) (request_json : Thrown + JsVal) (s : Store)
  : (Thrown + Response) * World Store :=
  POST env request_json (world0 s).

End Crawler.

(** * Vocabulary of the properties *)

Import Regex Crawler.

Arguments extractTextFromHTML : simpl never.
Arguments extractTitle : simpl never.
Arguments analyzeWebsiteContent : simpl never.
Arguments analyze_keywords : simpl never.
Arguments parse_keywords : simpl never.
Arguments destructure : simpl never.
Arguments truthy : simpl never.
Arguments substring0 : simpl never.
Arguments slice0 : simpl never.

Abbreviation HEALTHY := ("healthy"%string : jsstring).
Abbreviation DEGRADED := ("degraded"%string : jsstring).
Abbreviation UNHEALTHY := ("unhealthy"%string : jsstring).

Abbreviation PENDING := ("pending"%string : jsstring).
Abbreviation PROCESSING := ("processing"%string : jsstring).
Abbreviation COMPLETED := ("completed"%string : jsstring).
Abbreviation FAILED := ("failed"%string : jsstring).

(** The status a probe's entry gets from how the probe ended. *)
Definition entry_status {A} (answer : Thrown + A) : jsstring :=
  match answer with
  | inr _ => HEALTHY
  | inl _ => UNHEALTHY
  end.

(** A string that does not start, or end, with white space. *)
Definition starts_clean (s : jsstring) : Prop :=
  match s with
  | c :: _ => is_space c = false
  | [] => True
  end.

Definition ends_clean (s : jsstring) : Prop := starts_clean (rev s).

(** A match reaches its continuation, and never loses a capture. *)
Definition keeps (m : mstate -> cont -> option mstate) : Prop :=
  forall st k res,
    m st k = Some res ->
    exists st', k st' = Some res /\ (is_Some (cap st) -> is_Some (cap st')).

(** A matcher whose result depends on the continuation through its values. *)
Definition extensional (m : mstate -> cont -> option mstate) : Prop :=
  forall st k1 k2, (forall st', k1 st' = k2 st') -> m st k1 = m st k2.

(** A group that every match of the pattern goes through. *)
Fixpoint has_group (r : regex) : bool :=
  match r with
  | Group _ => true
  | Cat r1 r2 => has_group r1 || has_group r2
  | _ => false
  end.

(** The ways a crawl raises: in its first log line, in [fetch], in
    [response.text()], or in the analysis of the extracted text. *)
Inductive crawl_raises (env : Env) (url kws : JsVal) : Prop :=
| raises_log :
    stringifies url = false -> crawl_raises env url kws
| raises_fetch error :
    fetch env url = inl error -> crawl_raises env url kws
| raises_text response error :
    fetch env url = inr response -> ok response = true ->
    text response = inl error -> crawl_raises env url kws
| raises_analysis response html error :
    fetch env url = inr response -> ok response = true ->
    text response = inr html ->
    analyze_keywords (extractTextFromHTML html) kws = inl error ->
    crawl_raises env url kws.

(** What a crawl returns and which calls it makes, read off a run in a
    world without database whose clock has been read [n] times. *)
Definition crawl_outcome (env : Env) (url kws : JsVal) (n : nat)
  : option WebsiteData * list Call :=
  match crawlWebsiteDirectly (D := unit) env url kws
          {| db := tt; readings := n; calls := [] |} with
  | (inr r, w') => (r, calls w')
  | (inl _, w') => (None, calls w')
  end.

(** The clock readings of a crawl: one, for the timestamp of collected data. *)
Definition crawl_reads (r : option WebsiteData) : nat :=
  match r with
  | Some _ => 1
  | None => 0
  end.

(** The answer of the endpoint's [catch]. *)
Definition failed_response (error : Thrown) : Response :=
  {| statusCode := 500;
     body := CrawlFailed "Website crawl failed"%string
               (error_message "Unknown error"%string error) |}.

(** The record handed to [saveJobData] after a crawl that returned [r],
    when the clock has been read [n] times. *)
Definition crawl_record (env : Env) (url : JsVal) (r : option WebsiteData) (n : nat)
  : JobData :=
  match r with
  | Some data => Collected data
  | None => CrawlError url "Failed to crawl website"%string
              (toISOString env (clock env n))
  end.

(** The answer of the endpoint after a crawl that returned [r]. *)
Definition crawl_response (url : JsVal) (r : option WebsiteData) : Response :=
  match r with
  | None =>
      {| statusCode := 200;
         body := NoData true "Website crawl completed (no data collected)"%string url 0 |}
  | Some websiteData =>
      {| statusCode := 200;
         body := Completed true "Website crawl completed successfully"%string
           {| s_url := url;
              s_title := title websiteData;
              s_contentLength := Z.of_nat (length (content websiteData));
              s_valuePropositions := Z.of_nat (length (valuePropositions websiteData));
              s_features := Z.of_nat (length (features websiteData));
              s_benefits := Z.of_nat (length (benefits websiteData));
              s_keywords := Z.of_nat (length (keywords websiteData));
              s_preview := substring0 200 (content websiteData)
                             ++ ("..."%string : jsstring) |} |}
  end.


(** A body the endpoint works on: its job id and its URL are truthy and
    pass the log line that prints them. *)
Definition workable (jobId url : JsVal) : bool :=
  truthy jobId && truthy url && stringifies jobId && stringifies url.

(** The job a request addresses and the record its run stores, when the
    body is one the endpoint works on. *)
Definition stored_record (env : Env) (request : Thrown + JsVal)
  : option (JsVal * JobData) :=
  match request with
  | inr payload =>
      match destructure payload with
      | inr (jobId, url, targetKeywords) =>
          if workable jobId url then
            Some (jobId,
                  crawl_record env url
                    (fst (crawl_outcome env url (parse_keywords targetKeywords) 0)) 0)
          else None
      | inl _ => None
      end
  | inl _ => None
  end.

(** The store after the two writes of a run. *)
Definition store_after (write : option (JsVal * JobData)) (s : Store) : Store :=
  match write with
  | Some (jobId, data) =>
      {| jobs := alter (advance_status PROCESSING) jobId (jobs s);
         jobData := <[(jobId, ("website"%string : jsstring)) := data]> (jobData s) |}
  | None => s
  end.

(** ** Concrete inputs *)

Definition ex_now : jsstring := "2024-01-01T00:00:00.000Z"%string.

(** An environment whose network is down. *)
Definition ex_env_down : Env :=
  {| fetch := fun _ => inl (ThrownError "fetch failed"%string);
     clock := fun _ => 0;
     toISOString := fun _ => ex_now |}.

Definition ex_page : jsstring :=
  "<html><head><title> Shop </title></head><body>This mat is made of natural silver thread and helps you sleep better every night! Buy</body></html>"%string.

(** An environment that serves [ex_page] for every URL. *)
Definition ex_env_up (now : jsstring) : Env :=
  {| fetch := fun _ => inr {| ok := true; status := 200; text := inr ex_page |};
     clock := fun n => Z.of_nat n;
     toISOString := fun _ => now |}.

Definition ex_job : JsVal := JStr "job-1"%string.
Definition ex_url : JsVal := JStr "https://example.com"%string.

Definition ex_payload : JsVal :=
  JObj [ ("jobId"%string : jsstring, ex_job);
         ("websiteUrl"%string : jsstring, ex_url);
         ("targetKeywords"%string : jsstring, JStr "mat, silver"%string) ].

(** A store in which the job is already completed. *)
Definition ex_store : Store :=
  {| jobs := {[ ex_job := ("completed"%string : jsstring) ]}; jobData := ∅ |}.


Definition ex_content : jsstring :=
  "This product is something that comes with . Next"%string.


(** * Properties *)

(** ** The health route *)

Section HealthProps.
Import Health.
Context {Stats : Type}.
Implicit Types (env : Env Stats) (st : St).

Lemma database_check_run env st :
  exists entry st',
    database_check env st = (inr entry, st')
    /\ calls st' = calls st ++ [CallSql]
    /\ tc_status entry = entry_status (sql_select1 env)
    /\ forall error, sql_select1 env = inl error ->
         entry = {| tc_status := UNHEALTHY;
                    tc_message := ("Database error: "%string : jsstring)
                                    ++ error_message "Unknown database error"%string error;
                    tc_responseTime := 0 |}.
Proof.
  unfold database_check, try_catch, bind, Date_now, invoke, ret.
  destruct (sql_select1 env) as [e|[]]; simpl; do 2 eexists;
    (split; [reflexivity|]); simpl; repeat split; try reflexivity;
    intros error [= <-] || intros error [=]; reflexivity.
Qed.

Lemma redis_check_run env st :
  exists entry st',
    redis_check env st = (inr entry, st')
    /\ calls st' = calls st ++ [CallKvPing]
    /\ tc_status entry = entry_status (kv_ping env)
    /\ forall error, kv_ping env = inl error ->
         entry = {| tc_status := UNHEALTHY;
                    tc_message := ("Redis error: "%string : jsstring)
                                    ++ error_message "Unknown Redis error"%string error;
                    tc_responseTime := 0 |}.
Proof.
  unfold redis_check, try_catch, bind, Date_now, invoke, ret.
  destruct (kv_ping env) as [e|[]]; simpl; do 2 eexists;
    (split; [reflexivity|]); simpl; repeat split; try reflexivity;
    intros error [= <-] || intros error [=]; reflexivity.
Qed.

Lemma queue_check_run env st :
  exists entry st',
    queue_check env st = (inr entry, st')
    /\ calls st' = calls st ++ [CallGetQueueStats]
    /\ qc_status entry = entry_status (getQueueStats env)
    /\ forall error, getQueueStats env = inl error ->
         entry = {| qc_status := UNHEALTHY;
                    qc_message := ("Queue error: "%string : jsstring)
                                    ++ error_message "Unknown queue error"%string error;
                    qc_stats := None |}.
Proof.
  unfold queue_check, try_catch, bind, invoke, ret.
  destruct (getQueueStats env) as [e|stats]; simpl; do 2 eexists;
    (split; [reflexivity|]); simpl; repeat split; try reflexivity;
    intros error [= <-] || intros error [=]; reflexivity.
Qed.

Lemma environment_check_status env :
  ec_status (environment_check env) = HEALTHY
  \/ ec_status (environment_check env) = UNHEALTHY.
Proof.
  unfold environment_check.
  destruct (Z.of_nat (length (List.filter (env_missing env) requiredEnvVars)) =? 0);
    [left | right]; reflexivity.
Qed.

Lemma entry_status_cases {A} (answer : Thrown + A) :
  entry_status answer = HEALTHY \/ entry_status answer = UNHEALTHY.
Proof. destruct answer; [right | left]; reflexivity. Qed.

(** The document of a run, from its four entries. *)
Lemma GET_run env st :
  exists db kv q ts st',
    GET env st =
      (inr (let cs := {| database := db; redis := kv; queue := q;
                         environment := environment_check env |} in
            let healthyChecks :=
              Z.of_nat (length (List.filter is_healthy (check_statuses cs))) in
            {| statusCode := status_code (overall healthyChecks 4);
               body := {| timestamp := ts; status := overall healthyChecks 4;
                          checks := cs;
                          summary := {| healthy := healthyChecks; total := 4 |} |} |}),
       st')
    /\ calls st' = calls st ++ [CallSql; CallKvPing; CallGetQueueStats]
    /\ (tc_status db = entry_status (sql_select1 env)
        /\ forall error, sql_select1 env = inl error ->
             db = {| tc_status := UNHEALTHY;
                     tc_message := ("Database error: "%string : jsstring)
                                     ++ error_message "Unknown database error"%string error;
                     tc_responseTime := 0 |})
    /\ (tc_status kv = entry_status (kv_ping env)
        /\ forall error, kv_ping env = inl error ->
             kv = {| tc_status := UNHEALTHY;
                     tc_message := ("Redis error: "%string : jsstring)
                                     ++ error_message "Unknown Redis error"%string error;
                     tc_responseTime := 0 |})
    /\ (qc_status q = entry_status (getQueueStats env)
        /\ forall error, getQueueStats env = inl error ->
             q = {| qc_status := UNHEALTHY;
                    qc_message := ("Queue error: "%string : jsstring)
                                    ++ error_message "Unknown queue error"%string error;
                    qc_stats := None |}).
Proof.
  unfold GET, Date_toISOString.
  unfold bind at 1 2. unfold Date_now at 1. unfold ret at 1.
  set (st1 := {| readings := _; calls := calls st |}).
  destruct (database_check_run env st1) as (db & st2 & E1 & C1 & S1 & T1).
  destruct (redis_check_run env st2) as (kv & st3 & E2 & C2 & S2 & T2).
  destruct (queue_check_run env st3) as (q & st4 & E3 & C3 & S3 & T3).
  exists db, kv, q, (toISOString env (clock env (readings st))), st4.
  split.
  - unfold bind. rewrite E1, E2, E3. reflexivity.
  - split; [|auto].
    rewrite C3, C2, C1. subst st1. simpl. rewrite <- !app_assoc. reflexivity.
Qed.

Lemma statuses_distinct :
  HEALTHY <> DEGRADED /\ HEALTHY <> UNHEALTHY /\ DEGRADED <> UNHEALTHY.
Proof. repeat split; intros H; apply (f_equal length) in H; discriminate H. Qed.

Lemma overall_spec (n : Z) :
  0 <= n <= 4 ->
  (overall n 4 = HEALTHY <-> n = 4) /\
  (overall n 4 = DEGRADED <-> 0 < n < 4) /\
  (overall n 4 = UNHEALTHY <-> n = 0).
Proof.
  intros Hn. destruct statuses_distinct as (D1 & D2 & D3). unfold overall.
  destruct (Z.eqb_spec n 4) as [E|E]; [|destruct (Z.ltb_spec 0 n) as [L|L]];
    repeat split; intros; try lia; try reflexivity; try congruence.
Qed.

Lemma status_code_spec :
  status_code HEALTHY = 200 /\ status_code DEGRADED = 207 /\ status_code UNHEALTHY = 503.
Proof. repeat split; reflexivity. Qed.

(** How many of four statuses are [healthy]. *)
Lemma healthy_count (s1 s2 s3 s4 : jsstring) :
  let n := Z.of_nat (length (List.filter is_healthy [s1; s2; s3; s4])) in
  let h1 := s1 = HEALTHY in
  let h2 := s2 = HEALTHY in
  let h3 := s3 = HEALTHY in
  let h4 := s4 = HEALTHY in
  0 <= n <= 4 /\
  (n = 4 <-> h1 /\ h2 /\ h3 /\ h4) /\
  (0 < n <-> h1 \/ h2 \/ h3 \/ h4) /\
  (n = 0 <-> ~ h1 /\ ~ h2 /\ ~ h3 /\ ~ h4).
Proof.
  unfold is_healthy. cbn [List.filter].
  generalize HEALTHY. intros H.
  destruct (bool_decide_reflect (s1 = H)) as [E1|E1];
    destruct (bool_decide_reflect (s2 = H)) as [E2|E2];
    destruct (bool_decide_reflect (s3 = H)) as [E3|E3];
    destruct (bool_decide_reflect (s4 = H)) as [E4|E4];
    cbn [length]; (split; [lia|]); (split; [|split]);
    (split; [intros; try lia; tauto | intros; try lia; tauto]).
Qed.

(** C1. The composite status of GET /health is [healthy] exactly when the
    four entries (database, redis, queue, environment) are healthy,
    [degraded] exactly when some but not all are, [unhealthy] exactly when
    none is; and the response code is 200, 207 and 503 for the three. *)
Theorem GET_status_reduction env st :
  exists r st',
    GET env st = (inr r, st') /\
    let cs := checks (body r) in
    let h1 := tc_status (database cs) = HEALTHY in
    let h2 := tc_status (redis cs) = HEALTHY in
    let h3 := qc_status (queue cs) = HEALTHY in
    let h4 := ec_status (environment cs) = HEALTHY in
    (status (body r) = HEALTHY <-> h1 /\ h2 /\ h3 /\ h4) /\
    (status (body r) = DEGRADED <->
       (h1 \/ h2 \/ h3 \/ h4) /\ ~ (h1 /\ h2 /\ h3 /\ h4)) /\
    (status (body r) = UNHEALTHY <-> ~ h1 /\ ~ h2 /\ ~ h3 /\ ~ h4) /\
    (status (body r) = HEALTHY -> statusCode r = 200) /\
    (status (body r) = DEGRADED -> statusCode r = 207) /\
    (status (body r) = UNHEALTHY -> statusCode r = 503).
Proof.
  destruct (GET_run env st) as (db & kv & q & ts & st' & E & _).
  eexists _, st'. split; [exact E|].
  cbn [body checks status statusCode database redis queue environment check_statuses].
  destruct (healthy_count (tc_status db) (tc_status kv) (qc_status q)
              (ec_status (environment_check env))) as (Hn & H4 & Hpos & H0).
  set (n := Z.of_nat (length (List.filter is_healthy _))) in *.
  destruct (overall_spec n Hn) as (O1 & O2 & O3).
  destruct status_code_spec as (C1 & C2 & C3).
  split; [|split; [|split; [|split; [|split]]]].
  - rewrite O1. exact H4.
  - rewrite O2. split.
    + intros [L1 L2]. split; [apply Hpos, L1|]. intros Hall. apply H4 in Hall. lia.
    + intros [Hsome Hnall]. apply Hpos in Hsome. split; [exact Hsome|].
      destruct Hn as [_ Hle]. apply Z.le_lteq in Hle as [Hlt|Heq]; [exact Hlt|].
      exfalso. apply Hnall, H4, Heq.
  - rewrite O3. exact H0.
  - intros ->. exact C1.
  - intros ->. exact C2.
  - intros ->. exact C3.
Qed.

(** C5. In GET /health a probe that throws aborts nothing: whatever the
    database, key-value and queue probes do, the three are called in turn,
    the entry of one that throws is [unhealthy] with the message of the thrown
    error, and the document with its four entries, none left [unknown], is
    returned. *)
Theorem GET_probes_isolated env st :
  exists r st',
    GET env st = (inr r, st') /\
    calls st' = calls st ++ [CallSql; CallKvPing; CallGetQueueStats] /\
    let cs := checks (body r) in
    (forall error, sql_select1 env = inl error ->
       database cs =
         {| tc_status := UNHEALTHY;
            tc_message := ("Database error: "%string : jsstring)
                            ++ error_message "Unknown database error"%string error;
            tc_responseTime := 0 |}) /\
    (forall error, kv_ping env = inl error ->
       redis cs =
         {| tc_status := UNHEALTHY;
            tc_message := ("Redis error: "%string : jsstring)
                            ++ error_message "Unknown Redis error"%string error;
            tc_responseTime := 0 |}) /\
    (forall error, getQueueStats env = inl error ->
       queue cs =
         {| qc_status := UNHEALTHY;
            qc_message := ("Queue error: "%string : jsstring)
                            ++ error_message "Unknown queue error"%string error;
            qc_stats := None |}) /\
    tc_status (database cs) = entry_status (sql_select1 env) /\
    tc_status (redis cs) = entry_status (kv_ping env) /\
    qc_status (queue cs) = entry_status (getQueueStats env) /\
    (ec_status (environment cs) = HEALTHY \/ ec_status (environment cs) = UNHEALTHY).
Proof.
  destruct (GET_run env st) as (db & kv & q & ts & st' & E & C & [S1 T1] & [S2 T2] & [S3 T3]).
  eexists _, st'. split; [exact E|]. split; [exact C|].
  cbn [body checks database redis queue environment].
  repeat split; try assumption. apply environment_check_status.
Qed.

(** C7. POST /health calls the retry sweep first and, once the sweep has
    returned, the trigger of queue processing.  When both return, the
    answer is [{ success: true, message, timestamp }]; when either throws,
    the answer has code 500 and carries the message of the thrown error. *)
Theorem POST_maintenance env st :
  exists r st',
    POST env st = (inr r, st') /\
    calls st' =
      calls st ++ CallProcessRetryableJobs ::
        match processRetryableJobs env with
        | inr _ => [CallTriggerProcessing]
        | inl _ => []
        end /\
    let now := toISOString env (clock env (readings st)) in
    (processRetryableJobs env = inr tt -> triggerProcessing env = inr tt ->
       r = {| m_statusCode := 200;
              m_body := MaintenanceDone true "System maintenance completed"%string now |}) /\
    (forall error,
       processRetryableJobs env = inl error
       \/ (processRetryableJobs env = inr tt /\ triggerProcessing env = inl error) ->
       r = {| m_statusCode := 500;
              m_body := MaintenanceFailed "System maintenance failed"%string
                          (error_message "Unknown maintenance error"%string error) now |}).
Proof.
  unfold POST, try_catch, bind, invoke, Date_toISOString, Date_now, ret, bind.
  destruct (processRetryableJobs env) as [e1|[]], (triggerProcessing env) as [e2|[]];
    simpl; do 2 eexists; (split; [reflexivity|]); simpl;
    rewrite <- ?app_assoc; (split; [reflexivity|]); split;
    try (intros; discriminate); try reflexivity;
    intros error [H|[H1 H2]]; try discriminate; try congruence.
Qed.

End HealthProps.


(** ** Strings *)

Section StringProps.
Implicit Types (s w p q : jsstring) (c : ascii).

Lemma spread_set_from_spec (seen xs : list jsstring) :
  NoDup (spread_set_from seen xs) /\
  forall x, x ∈ spread_set_from seen xs <-> x ∈ xs /\ x ∉ seen.
Proof.
  revert seen. induction xs as [|x xs IH]; intros seen; simpl.
  - split; [constructor|]. intros y. rewrite elem_of_nil. tauto.
  - case_bool_decide as Hx.
    + destruct (IH seen) as [ND M]. split; [exact ND|].
      intros y. rewrite M, elem_of_cons. split; [tauto|].
      intros [[->|Hy] Hn]; [contradiction|tauto].
    + destruct (IH (x :: seen)) as [ND M]. split.
      * constructor; [|exact ND]. rewrite M, elem_of_cons. tauto.
      * intros y. rewrite !elem_of_cons, M, elem_of_cons.
        destruct (decide (y = x)) as [->|Hne]; tauto.
Qed.

Lemma spread_set_NoDup (xs : list jsstring) : NoDup (spread_set xs).
Proof. apply spread_set_from_spec. Qed.

Lemma spread_set_elem (xs : list jsstring) (x : jsstring) :
  x ∈ spread_set xs <-> x ∈ xs.
Proof.
  unfold spread_set. rewrite (proj2 (spread_set_from_spec [] xs)), elem_of_nil. tauto.
Qed.

Lemma trimStart_clean s : starts_clean (trimStart s).
Proof.
  induction s as [|c s IH]; simpl; [exact I|].
  destruct (is_space c) eqn:E; [exact IH|exact E].
Qed.

Lemma trimStart_id s : starts_clean s -> trimStart s = s.
Proof. destruct s as [|c s]; simpl; [reflexivity|]. intros ->. reflexivity. Qed.

Lemma trimStart_suffix s : exists p, s = p ++ trimStart s.
Proof.
  induction s as [|c s [p IH]]; simpl; [exists []; reflexivity|].
  destruct (is_space c); [|exists []; reflexivity].
  exists (c :: p). simpl. rewrite <- IH. reflexivity.
Qed.

Lemma trimEnd_prefix s : exists q, s = trimEnd s ++ q.
Proof.
  unfold trimEnd. destruct (trimStart_suffix (rev s)) as [p E].
  exists (rev p). rewrite <- rev_app_distr, <- E, rev_involutive. reflexivity.
Qed.

Lemma trimEnd_starts_clean s : starts_clean s -> starts_clean (trimEnd s).
Proof.
  intros H. destruct (trimEnd_prefix s) as [q E].
  destruct (trimEnd s) as [|c t]; [exact I|].
  rewrite E in H. exact H.
Qed.

Lemma trimEnd_ends_clean s : ends_clean (trimEnd s).
Proof. unfold ends_clean, trimEnd. rewrite rev_involutive. apply trimStart_clean. Qed.

Lemma trimEnd_id s : ends_clean s -> trimEnd s = s.
Proof.
  unfold ends_clean, trimEnd. intros H. rewrite (trimStart_id _ H).
  apply rev_involutive.
Qed.

Lemma trim_clean s : starts_clean (trim s) /\ ends_clean (trim s).
Proof.
  unfold trim. split; [|apply trimEnd_ends_clean].
  apply trimEnd_starts_clean, trimStart_clean.
Qed.

Lemma trim_id s : starts_clean s -> ends_clean s -> trim s = s.
Proof. intros H1 H2. unfold trim. rewrite (trimStart_id _ H1). apply trimEnd_id, H2. Qed.

(** [s.trim().trim()] is [s.trim()]. *)
Lemma trim_idempotent s : trim (trim s) = trim s.
Proof. destruct (trim_clean s). apply trim_id; assumption. Qed.

Lemma trimmed_clean w : trim w = w -> starts_clean w /\ ends_clean w.
Proof. intros <-. apply trim_clean. Qed.

Lemma startsWith_spec w s : startsWith w s = true <-> exists q, s = w ++ q.
Proof.
  revert s. induction w as [|a w IH]; intros s; simpl.
  - split; [intros _; exists s; reflexivity|reflexivity].
  - destruct s as [|b s].
    + split; [discriminate|]. intros [q [=]].
    + rewrite andb_true_iff, bool_decide_eq_true, IH. split.
      * intros [-> [q ->]]. exists q. reflexivity.
      * intros [q [= -> ->]]. split; [reflexivity|]. exists q. reflexivity.
Qed.

Lemma includes_spec s w : includes s w = true <-> exists p q, s = p ++ w ++ q.
Proof.
  induction s as [|b s IH]; simpl.
  - rewrite orb_false_r, startsWith_spec. split.
    + intros [q E]. exists [], q. exact E.
    + intros (p & q & E). destruct p as [|x p]; [exists q; exact E|discriminate].
  - rewrite orb_true_iff, startsWith_spec, IH. split.
    + intros [[q E]|(p & q & E)].
      * exists [], q. exact E.
      * exists (b :: p), q. simpl. rewrite E. reflexivity.
    + intros (p & q & E). destruct p as [|x p].
      * left. exists q. exact E.
      * right. injection E as -> E. exists p, q. exact E.
Qed.

Lemma includes_rev s w : includes s w = true -> includes (rev s) (rev w) = true.
Proof.
  rewrite !includes_spec. intros (p & q & ->).
  exists (rev q), (rev p). rewrite !rev_app_distr, <- app_assoc. reflexivity.
Qed.

Lemma includes_trimStart s w :
  starts_clean w -> includes s w = true -> includes (trimStart s) w = true.
Proof.
  intros Hw. induction s as [|c s IH]; simpl; [tauto|].
  destruct (is_space c) eqn:Ec; [|simpl; tauto].
  intros H. apply IH. apply orb_true_iff in H as [H|H]; [|exact H].
  destruct w as [|a w].
  - apply includes_spec. exists [], s. reflexivity.
  - simpl in H, Hw. apply andb_true_iff in H as [H _].
    apply bool_decide_eq_true in H. congruence.
Qed.

Lemma includes_trimEnd s w :
  ends_clean w -> includes s w = true -> includes (trimEnd s) w = true.
Proof.
  intros Hw H. unfold trimEnd.
  rewrite <- (rev_involutive w). apply includes_rev.
  apply includes_trimStart; [exact Hw|]. apply includes_rev, H.
Qed.

(** A word without white space at its ends that occurs in a string occurs in
    the trimmed string. *)
Lemma includes_trim s w :
  starts_clean w -> ends_clean w -> includes s w = true -> includes (trim s) w = true.
Proof.
  intros H1 H2 H. unfold trim. apply includes_trimEnd; [exact H2|].
  apply includes_trimStart; assumption.
Qed.

Lemma is_space_lower_unit c : is_space (lower_unit c) = is_space c.
Proof. destruct c as [[] [] [] [] [] [] [] []]; reflexivity. Qed.

Lemma trimStart_toLowerCase s : trimStart (toLowerCase s) = toLowerCase (trimStart s).
Proof.
  induction s as [|c s IH]; simpl; [reflexivity|].
  rewrite is_space_lower_unit. destruct (is_space c); [exact IH|reflexivity].
Qed.

Lemma rev_toLowerCase s : rev (toLowerCase s) = toLowerCase (rev s).
Proof. unfold toLowerCase. symmetry. apply List.map_rev. Qed.

Lemma trim_toLowerCase s : trim (toLowerCase s) = toLowerCase (trim s).
Proof.
  unfold trim, trimEnd.
  rewrite trimStart_toLowerCase, rev_toLowerCase, trimStart_toLowerCase, rev_toLowerCase.
  reflexivity.
Qed.

Lemma length_toLowerCase s : length (toLowerCase s) = length s.
Proof. apply length_map. Qed.

End StringProps.


(** ** The matcher *)

Section RegexProps.

Lemma star_loop_keeps m greedy fuel : keeps m -> keeps (star_loop m greedy fuel).
Proof.
  intros Hm. induction fuel as [|fuel IH]; intros st k res; simpl.
  - destruct greedy; [intros H; exists st; tauto|].
    destruct (k st) eqn:E; [|discriminate].
    intros [= <-]. exists st. tauto.
  - assert (Hagain :
      m st (fun st' =>
              if (length (rest st') <? length (rest st))%nat
              then star_loop m greedy fuel st' k else None) = Some res ->
      exists st', k st' = Some res /\ (is_Some (cap st) -> is_Some (cap st'))).
    { intros H. apply Hm in H as (st1 & H & C1).
      destruct (length (rest st1) <? length (rest st))%nat; [|discriminate].
      apply IH in H as (st2 & H & C2). exists st2. tauto. }
    destruct greedy.
    + destruct (m st _) eqn:E.
      * intros [= <-]. apply Hagain. reflexivity.
      * intros H. exists st. tauto.
    + destruct (k st) eqn:E.
      * intros [= <-]. exists st. tauto.
      * exact Hagain.
Qed.

Lemma run_keeps ignoreCase r : keeps (run ignoreCase r).
Proof.
  induction r as [c|p| |r1 IH1 r2 IH2|r1 IH1 r2 IH2|greedy r IH|r IH|];
    intros st k res; simpl.
  - destruct (rest st) as [|x s']; [discriminate|].
    case_bool_decide; [|discriminate]. intros Hk. eexists. split; [exact Hk|]. tauto.
  - destruct (rest st) as [|x s']; [discriminate|].
    destruct (p x); [|discriminate]. intros H. eexists. split; [exact H|]. tauto.
  - intros H. exists st. tauto.
  - intros H. apply IH1 in H as (st1 & H & C1).
    apply IH2 in H as (st2 & H & C2). exists st2. tauto.
  - destruct (run ignoreCase r1 st k) eqn:E.
    + intros [= <-]. apply IH1, E.
    + apply IH2.
  - apply star_loop_keeps, IH.
  - intros H. apply IH in H as (st1 & H & _). eexists. split; [exact H|].
    simpl. eauto.
  - destruct (xorb _ _); [|discriminate]. intros H. exists st. tauto.
Qed.

Lemma star_loop_ext m greedy fuel :
  extensional m -> extensional (star_loop m greedy fuel).
Proof.
  intros Hm. induction fuel as [|fuel IH]; intros st k1 k2 Hk; simpl.
  - rewrite (Hk st). reflexivity.
  - rewrite (Hk st).
    rewrite (Hm st _ (fun st' =>
               if (length (rest st') <? length (rest st))%nat
               then star_loop m greedy fuel st' k2 else None)); [reflexivity|].
    intros st'. destruct (length (rest st') <? length (rest st))%nat; [|reflexivity].
    apply IH, Hk.
Qed.

Lemma run_ext ignoreCase r : extensional (run ignoreCase r).
Proof.
  induction r as [c|p| |r1 IH1 r2 IH2|r1 IH1 r2 IH2|greedy r IH|r IH|];
    intros st k1 k2 Hk; simpl.
  - destruct (rest st) as [|x s']; [reflexivity|]. case_bool_decide; [apply Hk|reflexivity].
  - destruct (rest st) as [|x s']; [reflexivity|]. destruct (p x); [apply Hk|reflexivity].
  - apply Hk.
  - apply IH1. intros st'. apply IH2, Hk.
  - rewrite (IH1 st k1 k2 Hk), (IH2 st k1 k2 Hk). reflexivity.
  - apply star_loop_ext; [exact IH|exact Hk].
  - apply IH. intros st'. apply Hk.
  - destruct (xorb _ _); [apply Hk|reflexivity].
Qed.

(** The fuel of a quantifier is never what stops it: any amount from the
    length of the input on gives the same match. *)
Lemma star_loop_fuel m greedy :
  extensional m -> keeps m ->
  forall fuel1 fuel2 st k,
    (length (rest st) <= fuel1)%nat -> (length (rest st) <= fuel2)%nat ->
    star_loop m greedy fuel1 st k = star_loop m greedy fuel2 st k.
Proof.
  intros Hext Hkeeps.
  assert (Hnone : forall st, m st (fun _ => None) = None).
  { intros st. destruct (m st (fun _ => None)) as [res|] eqn:E; [|reflexivity].
    apply Hkeeps in E as (st' & E & _). discriminate E. }
  induction fuel1 as [|fuel1 IH]; intros fuel2 st k H1 H2.
  - destruct fuel2 as [|fuel2]; [reflexivity|]. simpl.
    rewrite (Hext st _ (fun _ => None)), Hnone; [reflexivity|].
    intros st'. destruct (Nat.ltb_spec (length (rest st')) (length (rest st)));
      [lia|reflexivity].
  - destruct fuel2 as [|fuel2]; simpl.
    + rewrite (Hext st _ (fun _ => None)), Hnone; [reflexivity|].
      intros st'. destruct (Nat.ltb_spec (length (rest st')) (length (rest st)));
        [lia|reflexivity].
    + rewrite (Hext st _ (fun st' =>
                 if (length (rest st') <? length (rest st))%nat
                 then star_loop m greedy fuel2 st' k else None)); [reflexivity|].
      intros st'. destruct (Nat.ltb_spec (length (rest st')) (length (rest st)));
        [|reflexivity].
      apply IH; lia.
Qed.

Lemma run_Star_fuel ignoreCase greedy r st k fuel :
  (length (rest st) <= fuel)%nat ->
  run ignoreCase (Star greedy r) st k = star_loop (run ignoreCase r) greedy fuel st k.
Proof.
  intros H. simpl. apply star_loop_fuel; [apply run_ext|apply run_keeps|lia|exact H].
Qed.

Lemma run_sets ignoreCase r st k res :
  has_group r = true ->
  run ignoreCase r st k = Some res ->
  exists st', k st' = Some res /\ is_Some (cap st').
Proof.
  revert st k. induction r as [| | |r1 IH1 r2 IH2| | |r IH|]; intros st k; simpl;
    try discriminate.
  - intros Hg H. destruct (has_group r1) eqn:G1.
    + apply IH1 in H as (st1 & H & C1); [|reflexivity].
      apply run_keeps in H as (st2 & H & C2). exists st2. tauto.
    + apply run_keeps in H as (st1 & H & _). apply IH2 in H; [exact H|exact Hg].
  - intros _ H. apply run_keeps in H as (st1 & H & _). eexists. split; [exact H|].
    simpl. eauto.
Qed.

Lemma exec_captures ignoreCase r prev s n g :
  has_group r = true -> exec ignoreCase r prev s = Some (n, g) -> is_Some g.
Proof.
  unfold exec. intros Hg.
  destruct (run ignoreCase r _ Some) eqn:E; [|discriminate].
  intros [= _ <-]. apply run_sets in E as (st' & [= ->] & C); [exact C|exact Hg].
Qed.

Lemma match_first_captures ignoreCase r s whole g :
  has_group r = true -> match_first ignoreCase r s = Some (whole, g) -> is_Some g.
Proof.
  unfold match_first. intros Hg. generalize (@None ascii).
  induction s as [|c s IH]; intros prev; simpl.
  - destruct (exec ignoreCase r prev []) as [[n g']|] eqn:E; [|discriminate].
    intros [= _ <-]. eapply exec_captures; eassumption.
  - destruct (exec ignoreCase r prev (c :: s)) as [[n g']|] eqn:E; [|apply IH].
    intros [= _ <-]. eapply exec_captures; eassumption.
Qed.

(** A match of the title pattern defines its group: [extractTitle] is the
    trimmed group or the default. *)
Lemma re_title_captures html :
  match match_first true re_title html with
  | Some (_, Some group1) => extractTitle html = trim group1
  | Some (_, None) => False
  | None => extractTitle html = ("Unknown Title"%string : jsstring)
  end.
Proof.
  unfold extractTitle.
  destruct (match_first true re_title html) as [[whole [g|]]|] eqn:E; try reflexivity.
  apply match_first_captures in E as [g [=]]. reflexivity.
Qed.

End RegexProps.


(** ** The collector and its endpoint *)

Section CrawlerProps.
Context {D : Type}.
Implicit Types (env : Env) (w : World D) (url kws payload jobId : JsVal).


(** [crawlWebsiteDirectly] returns, whatever happens inside, and leaves the
    database alone; what it returns does not depend on the database; it
    returns [null] when something is raised. *)
Lemma crawl_run env url kws w :
  let r := fst (crawl_outcome env url kws (readings w)) in
  let cs := snd (crawl_outcome env url kws (readings w)) in
  crawlWebsiteDirectly env url kws w =
    (inr r, {| db := db w; readings := (crawl_reads r + readings w)%nat;
               calls := calls w ++ cs |})
  /\ Forall (fun c => c = CallFetch url \/ c = CallResponseText) cs
  /\ (crawl_raises env url kws -> r = None).
Proof.
  destruct w as [d n cs0].
  unfold crawl_outcome, crawlWebsiteDirectly, try_catch, bind, console_log,
    template_literal, invoke, lift, Date_toISOString, Date_now, ret, log.
  cbn [forallb db readings calls].
  destruct (stringifies url) eqn:Es; cbn.
  2:{ rewrite app_nil_r. repeat split; auto. }
  destruct (fetch env url) as [e|resp] eqn:Ef; cbn.
  { repeat split; auto. }
  destruct (ok resp) eqn:Eok; cbn.
  2:{ repeat split; auto. }
  destruct (text resp) as [e|html] eqn:Et; cbn.
  { rewrite <- app_assoc. repeat split; auto. }
  destruct (analyze_keywords (extractTextFromHTML html) kws) as [e|analysis] eqn:Ea; cbn.
  { rewrite <- app_assoc. repeat split; auto. }
  rewrite <- app_assoc. split; [reflexivity|]. split; [auto|].
  intros [H|e H|r' e H1 H2 H3|r' h e H1 H2 H3 H4]; congruence.
Qed.

(** What a crawl returns when the page is fetched and analysed. *)
Lemma crawl_collects env url kws w response html targetKeywords :
  stringifies url = true ->
  fetch env url = inr response -> ok response = true ->
  text response = inr html ->
  as_string_array kws = Some targetKeywords ->
  let textContent := extractTextFromHTML html in
  let analysis := analyzeWebsiteContent textContent targetKeywords in
  fst (crawlWebsiteDirectly env url kws w) =
    inr (Some {| url := url;
                 title := extractTitle html;
                 content := substring0 5000 textContent;
                 valuePropositions := a_valuePropositions analysis;
                 features := a_features analysis;
                 benefits := a_benefits analysis;
                 keywords := a_keywords analysis;
                 metadata :=
                   {| md_timestamp := toISOString env (clock env (readings w));
                      md_contentLength := Z.of_nat (length textContent);
                      md_extractionMethod := "direct_fetch"%string |} |}).
Proof.
  intros Es Ef Eok Et Ek.
  unfold crawlWebsiteDirectly, try_catch, bind, console_log, template_literal,
    invoke, lift, Date_toISOString, Date_now, ret, log, analyze_keywords.
  cbn [forallb]. rewrite Es. cbn [andb].
  rewrite Ef. simpl. rewrite Eok. simpl. rewrite Et. simpl. rewrite Ek. reflexivity.
Qed.

Lemma crawl_inversion env url kws w d w' :
  crawlWebsiteDirectly env url kws w = (inr (Some d), w') ->
  stringifies url = true /\
  exists response html targetKeywords,
    fetch env url = inr response /\ ok response = true /\
    text response = inr html /\ as_string_array kws = Some targetKeywords.
Proof.
  unfold crawlWebsiteDirectly, try_catch, bind, console_log, template_literal,
    invoke, lift, Date_toISOString, Date_now, ret, log, analyze_keywords.
  cbn [forallb].
  destruct (stringifies url) eqn:Es; simpl; [|discriminate].
  destruct (fetch env url) as [e|resp] eqn:Ef; simpl; [discriminate|].
  destruct (ok resp) eqn:Eok; simpl; [|discriminate].
  destruct (text resp) as [e|html] eqn:Et; simpl; [discriminate|].
  destruct (as_string_array kws) as [ks|] eqn:Ek; simpl; [|discriminate].
  intros _. split; [reflexivity|]. exists resp, html, ks. auto.
Qed.

Context `{!JobDb D}.

(** The start of a run on a body with a truthy job id and URL: the body is
    read and the log line of the handler is evaluated. *)
Lemma POST_start env payload jobId url targetKeywords w :
  destructure payload = inr (jobId, url, targetKeywords) ->
  truthy jobId = true -> truthy url = true ->
  POST env (inr payload) w =
    try_catch
      (console_log [jobId; url] ;;;
       db_call (CallUpdateJobStatus jobId "processing"%string)
               (updateJobStatus jobId "processing"%string) ;;;
       websiteData <~ crawlWebsiteDirectly env url (parse_keywords targetKeywords) ;;
       match websiteData with
       | None =>
           timestamp <~ Date_toISOString env ;;
           let record := CrawlError url "Failed to crawl website"%string timestamp in
           db_call (CallSaveJobData jobId "website"%string record)
                   (saveJobData jobId "website"%string record) ;;;
           ret (crawl_response url None)
       | Some websiteData =>
           db_call (CallSaveJobData jobId "website"%string (Collected websiteData))
                   (saveJobData jobId "website"%string (Collected websiteData)) ;;;
           console_log [jobId] ;;;
           ret (crawl_response url (Some websiteData))
       end)%eff
      (fun error => ret (failed_response error))
      (log CallRequestJson w).
Proof.
  intros Hd Hj Hu. unfold POST, try_catch at 1.
  unfold bind at 1. unfold invoke at 1. cbv beta iota.
  unfold bind at 1. unfold lift at 1. rewrite Hd. cbv beta iota.
  rewrite Hj, Hu. cbn [negb orb]. reflexivity.
Qed.

(** The run of the endpoint on a body it works on. *)
Lemma POST_valid_run env payload jobId url targetKeywords w :
  destructure payload = inr (jobId, url, targetKeywords) ->
  truthy jobId = true -> truthy url = true ->
  stringifies jobId = true -> stringifies url = true ->
  let r := fst (crawl_outcome env url (parse_keywords targetKeywords) (readings w)) in
  let cs := snd (crawl_outcome env url (parse_keywords targetKeywords) (readings w)) in
  let data := crawl_record env url r (readings w) in
  let cs1 := [CallRequestJson; CallUpdateJobStatus jobId "processing"%string] in
  exists a1 s1,
    updateJobStatus jobId "processing"%string (db w) = (a1, s1) /\
    match a1 with
    | inl error =>
        POST env (inr payload) w =
          (inr (failed_response error),
           {| db := s1; readings := readings w; calls := calls w ++ cs1 |})
    | inr _ =>
        exists a2 s2,
          saveJobData jobId "website"%string data s1 = (a2, s2) /\
          POST env (inr payload) w =
            (inr (match a2 with
                  | inl error => failed_response error
                  | inr _ => crawl_response url r
                  end),
             {| db := s2;
                readings := S (readings w);
                calls := calls w ++ cs1 ++ cs
                           ++ [CallSaveJobData jobId "website"%string data] |})
    end.
Proof.
  intros Hd Hj Hu Hsj Hsu r cs data cs1.
  rewrite (POST_start env payload jobId url targetKeywords w Hd Hj Hu).
  destruct (updateJobStatus jobId "processing"%string (db w)) as [a1 s1] eqn:E1.
  exists a1, s1. split; [reflexivity|].
  assert (Hlog : forall k : Eff (World D) Response,
            (console_log [jobId; url] ;;; k)%eff (log CallRequestJson w)
            = k (log CallRequestJson w)).
  { intros k. unfold bind, console_log, template_literal, lift.
    cbn [forallb]. rewrite Hsj, Hsu. reflexivity. }
  destruct a1 as [e|[]].
  { unfold try_catch. rewrite Hlog.
    unfold bind at 1. unfold db_call at 1. cbn [db readings calls log]. rewrite E1.
    unfold ret, failed_response. rewrite <- app_assoc. reflexivity. }
  destruct (crawl_run env url (parse_keywords targetKeywords)
              {| db := s1; readings := readings w;
                 calls := (calls w ++ [CallRequestJson])
                            ++ [CallUpdateJobStatus jobId "processing"%string] |})
    as (Ec & _ & _).
  cbn [db readings calls] in Ec. fold r cs in Ec.
  destruct (saveJobData jobId "website"%string data s1) as [a2 s2] eqn:E2.
  exists a2, s2. split; [reflexivity|].
  unfold try_catch. rewrite Hlog.
  unfold bind at 1. unfold db_call at 1. cbn [db readings calls log]. rewrite E1.
  unfold bind at 1. rewrite Ec.
  subst data. destruct r as [d|]; cbn [crawl_record crawl_reads] in E2 |- *.
  - unfold bind at 1. unfold db_call at 1. cbn [db readings calls]. rewrite E2.
    rewrite <- !app_assoc. destruct a2 as [e|[]]; [reflexivity|].
    unfold bind, console_log, template_literal, lift, ret.
    cbn [forallb]. rewrite Hsj. reflexivity.
  - unfold bind at 1. unfold Date_toISOString, Date_now, bind at 1, ret at 1.
    cbn [db readings calls].
    unfold bind, db_call, ret. cbn [db readings calls Nat.add]. rewrite E2.
    rewrite <- !app_assoc. destruct a2 as [e|[]]; reflexivity.
Qed.

(** On a body whose job id or URL does not convert to a string, the log
    line of the handler throws: the endpoint answers 500 and does nothing
    else. *)
Lemma POST_unprintable env payload jobId url targetKeywords w :
  destructure payload = inr (jobId, url, targetKeywords) ->
  truthy jobId = true -> truthy url = true ->
  stringifies jobId && stringifies url = false ->
  POST env (inr payload) w =
    (inr (failed_response
            (TypeError "Cannot convert object to primitive value"%string)),
     log CallRequestJson w).
Proof.
  intros Hd Hj Hu Hs.
  rewrite (POST_start env payload jobId url targetKeywords w Hd Hj Hu).
  unfold try_catch. unfold bind at 1.
  unfold console_log at 1, template_literal at 1, lift at 1.
  cbn [forallb]. rewrite andb_true_r, Hs. reflexivity.
Qed.

(** On a body without a truthy job id or URL the endpoint answers 400 and
    does nothing else. *)
Lemma POST_falsy_field env payload jobId url targetKeywords w :
  destructure payload = inr (jobId, url, targetKeywords) ->
  truthy jobId = false \/ truthy url = false ->
  POST env (inr payload) w =
    (inr {| statusCode := 400;
            body := Required "Job ID and website URL are required"%string |},
     log CallRequestJson w).
Proof.
  intros Hd Hf. unfold POST, try_catch at 1.
  unfold bind at 1. unfold invoke at 1. cbv beta iota.
  unfold bind at 1. unfold lift at 1. rewrite Hd. cbv beta iota.
  destruct Hf as [-> | ->]; [|rewrite orb_true_r]; reflexivity.
Qed.

(** A body that cannot be read, or is [null], is answered with 500, and
    nothing else is done. *)
Lemma POST_unreadable env request error w :
  request = inl error
  \/ (exists payload, request = inr payload /\ destructure payload = inl error) ->
  POST env request w = (inr (failed_response error), log CallRequestJson w).
Proof.
  intros [->|(payload & -> & Hd)]; unfold POST, try_catch at 1.
  - reflexivity.
  - unfold bind at 1. unfold invoke at 1. cbv beta iota.
    unfold bind at 1. unfold lift at 1. rewrite Hd. reflexivity.
Qed.

(** The endpoint always answers: nothing thrown inside leaves it. *)
Lemma POST_total env request_json w :
  exists response w', POST env request_json w = (inr response, w').
Proof.
  unfold POST, try_catch at 1.
  match goal with
  | |- context [match ?c w with _ => _ end] => destruct (c w) as [[e|r] w']
  end; unfold ret; eauto.
Qed.

(** C6. For a JSON body that lacks [jobId] or lacks [websiteUrl], the
    endpoint answers 400 with an error message and changes nothing: the
    database is as before, and the only call made is the reading of the body,
    so neither [updateJobStatus] nor [saveJobData] (nor [fetch]) is invoked. *)
Theorem POST_missing_field env fields w :
  own_prop fields "jobId"%string = Undefined
  \/ own_prop fields "websiteUrl"%string = Undefined ->
  exists w',
    POST env (inr (JObj fields)) w =
      (inr {| statusCode := 400;
              body := Required "Job ID and website URL are required"%string |}, w')
    /\ db w' = db w
    /\ readings w' = readings w
    /\ calls w' = calls w ++ [CallRequestJson].
Proof.
  intros Hm. exists (log CallRequestJson w). split.
  - apply (POST_falsy_field env (JObj fields) _ _ _ w eq_refl).
    cbn [get_prop]. destruct Hm as [-> | ->]; [left|right]; reflexivity.
  - repeat split; reflexivity.
Qed.

(** C3. An error raised during a crawl does not leave the collector:
    [crawlWebsiteDirectly] returns [null] (and it always returns, in every
    environment, without touching the database), and the endpoint always
    answers.  When the error is raised in a run that has reached the crawl,
    that is on a body whose job id and URL are truthy and pass the log line
    of the handler, with a database that accepts the two writes, the endpoint
    hands [saveJobData] the error record for the [website] source and
    answers 200 with [success: true]. *)
Theorem crawl_errors_contained env payload jobId url targetKeywords w s1 s2 :
  destructure payload = inr (jobId, url, targetKeywords) ->
  truthy jobId = true -> truthy url = true ->
  stringifies jobId = true -> stringifies url = true ->
  crawl_raises env url (parse_keywords targetKeywords) ->
  let record :=
    CrawlError url "Failed to crawl website"%string
      (toISOString env (clock env (readings w))) in
  updateJobStatus jobId "processing"%string (db w) = (inr tt, s1) ->
  saveJobData jobId "website"%string record s1 = (inr tt, s2) ->
  (forall env' url' kws' (w0 : World D),
     exists r w0', crawlWebsiteDirectly env' url' kws' w0 = (inr r, w0')
                   /\ db w0' = db w0
                   /\ (crawl_raises env' url' kws' -> r = None)) /\
  (forall env' request (w0 : World D),
     exists response w0', POST env' request w0 = (inr response, w0')) /\
  exists w' cs,
    POST env (inr payload) w =
      (inr {| statusCode := 200;
              body := NoData true "Website crawl completed (no data collected)"%string
                             url 0 |}, w')
    /\ db w' = s2
    /\ calls w' = calls w ++ [CallRequestJson;
                               CallUpdateJobStatus jobId "processing"%string]
                           ++ cs ++ [CallSaveJobData jobId "website"%string record].
Proof.
  intros Hd Hj Hu Hsj Hsu Hraise record E1 E2. split; [|split].
  - intros env' url' kws' w0. destruct (crawl_run env' url' kws' w0) as (E & _ & Hnull).
    eexists _, _. split; [exact E|]. split; [reflexivity|exact Hnull].
  - intros env' request w0. apply POST_total.
  - destruct (POST_valid_run env payload jobId url targetKeywords w Hd Hj Hu Hsj Hsu)
      as (a1 & s1' & E1' & H).
    rewrite E1 in E1'. injection E1' as <- <-.
    destruct H as (a2 & s2' & E2' & H).
    destruct (crawl_run env url (parse_keywords targetKeywords) w) as (_ & _ & Hnull).
    rewrite (Hnull Hraise) in E2', H. cbn [crawl_record crawl_response] in E2', H.
    fold record in E2', H. rewrite E2 in E2'. injection E2' as <- <-.
    eexists _, _. split; [exact H|]. split; reflexivity.
Qed.

(** C9. The data of a crawl that collected something is bounded: at most
    5000 code units of content, 8 value propositions, 10 features, 10
    benefits and 15 keywords. *)
Theorem crawl_size_bounds env url kws w data w' :
  crawlWebsiteDirectly env url kws w = (inr (Some data), w') ->
  (length (content data) <= 5000)%nat /\
  (length (valuePropositions data) <= 8)%nat /\
  (length (features data) <= 10)%nat /\
  (length (benefits data) <= 10)%nat /\
  (length (keywords data) <= 15)%nat.
Proof.
  intros E.
  destruct (crawl_inversion _ _ _ _ _ _ E)
    as (Es & resp & html & ks & Ef & Eok & Et & Ek).
  pose proof (crawl_collects env url kws w resp html ks Es Ef Eok Et Ek) as Hc.
  rewrite E in Hc. cbn [fst] in Hc. injection Hc as ->.
  cbn [content valuePropositions features benefits keywords].
  unfold analyzeWebsiteContent, substring0, slice0.
  cbn [a_valuePropositions a_features a_benefits a_keywords].
  repeat split; apply List.firstn_le_length.
Qed.

End CrawlerProps.


(** ** The endpoint on the job store *)

Section StoreProps.
Implicit Types (env : Env) (s : Store) (request : Thrown + JsVal).

(** What a run leaves in the store and which calls it makes. *)
Lemma POST_store_run env request s :
  let w' := snd (run_POST env request s) in
  db w' = store_after (stored_record env request) s /\
  match stored_record env request with
  | Some (jobId, data) =>
      exists cs,
        calls w' = [CallRequestJson; CallUpdateJobStatus jobId PROCESSING]
                     ++ cs ++ [CallSaveJobData jobId "website"%string data]
        /\ Forall (fun c => exists url, c = CallFetch url \/ c = CallResponseText) cs
  | None => calls w' = [CallRequestJson]
  end.
Proof.
  unfold run_POST, stored_record.
  destruct request as [e|payload].
  { rewrite (POST_unreadable env (inl e) e (world0 s)); [split; reflexivity|].
    left. reflexivity. }
  destruct (destructure payload) as [e|[[jobId url] targetKeywords]] eqn:Hd.
  { rewrite (POST_unreadable env (inr payload) e (world0 s)); [split; reflexivity|].
    right. eauto. }
  unfold workable.
  destruct (truthy jobId) eqn:Hj; [destruct (truthy url) eqn:Hu|]; cbn [andb].
  - destruct (stringifies jobId && stringifies url) eqn:Hs.
    + apply andb_true_iff in Hs as [Hsj Hsu].
      destruct (POST_valid_run env payload jobId url targetKeywords (world0 s)
                  Hd Hj Hu Hsj Hsu) as (a1 & s1 & E1 & H).
      cbn in E1. unfold store_updateJobStatus in E1. injection E1 as <- <-.
      destruct H as (a2 & s2 & E2 & H).
      cbn in E2. unfold store_saveJobData in E2. injection E2 as <- <-.
      rewrite H. cbn [snd db calls world0 readings app]. split; [reflexivity|].
      eexists. split; [reflexivity|].
      destruct (crawl_run env url (parse_keywords targetKeywords) (world0 s))
        as (_ & F & _).
      cbn [world0 readings] in F. revert F. apply List.Forall_impl.
      intros c Hc. exists url. exact Hc.
    + rewrite (POST_unprintable env payload jobId url targetKeywords (world0 s)
                 Hd Hj Hu Hs).
      split; reflexivity.
  - rewrite (POST_falsy_field env payload jobId url targetKeywords (world0 s) Hd);
      [split; reflexivity|]. right. exact Hu.
  - rewrite (POST_falsy_field env payload jobId url targetKeywords (world0 s) Hd);
      [split; reflexivity|]. left. exact Hj.
Qed.

(** Whether a run writes, and for which job, is decided by the body. *)
Lemma stored_record_job env1 env2 request :
  fst <$> stored_record env1 request = fst <$> stored_record env2 request.
Proof.
  unfold stored_record. destruct request as [e|payload]; [reflexivity|].
  destruct (destructure payload) as [e|[[jobId url] targetKeywords]]; [reflexivity|].
  destruct (workable jobId url); reflexivity.
Qed.

Lemma stored_record_workable env payload jobId url targetKeywords :
  destructure payload = inr (jobId, url, targetKeywords) ->
  workable jobId url = true ->
  stored_record env (inr payload) =
    Some (jobId, crawl_record env url
                   (fst (crawl_outcome env url (parse_keywords targetKeywords) 0)) 0).
Proof. intros Hd Hw. unfold stored_record. rewrite Hd, Hw. reflexivity. Qed.


(** A request for [processing] moves [pending] forward and leaves every
    other status. *)
Lemma advance_status_processing (current : jsstring) :
  advance_status PROCESSING current =
    (if bool_decide (current = PENDING) then PROCESSING else current).
Proof.
  unfold advance_status, forward_step.
  destruct (bool_decide (current = PENDING)) eqn:E1; cbn [andb orb].
  - reflexivity.
  - rewrite andb_false_r. reflexivity.
Qed.

Lemma advance_status_twice (current : jsstring) :
  advance_status PROCESSING (advance_status PROCESSING current)
  = advance_status PROCESSING current.
Proof.
  rewrite !advance_status_processing.
  destruct (bool_decide (current = PENDING)) eqn:E1; [reflexivity|].
  rewrite E1. reflexivity.
Qed.

Lemma store_after_twice write1 write2 s :
  fst <$> write1 = fst <$> write2 ->
  store_after write2 (store_after write1 s) = store_after write2 s.
Proof.
  destruct write1 as [[j1 d1]|], write2 as [[j2 d2]|]; cbn; try discriminate;
    [|reflexivity].
  intros [= ->]. f_equal.
  - rewrite alter_alter_eq. apply alter_ext. intros x _.
    apply advance_status_twice.
  - apply insert_insert_eq.
Qed.

(** C4. Running the collector again with the same body overwrites.  The
    store after two runs is the store after the last run alone, whatever the
    two runs fetched and whenever they ran.  On a body the endpoint works on,
    each run does write: its calls end with one [saveJobData] for
    (job id, [website]), the only save of the run, and the records of the
    store after it are those from before the runs with, under that key, the
    record this run saved.  So after two runs the record of the first is
    gone, replaced by that of the last write, and no other key has been
    added. *)
Theorem POST_rerun_overwrites env1 env2 payload s :
  let run1 := snd (run_POST env1 (inr payload) s) in
  let run2 := snd (run_POST env2 (inr payload) (db run1)) in
  db run2 = db (snd (run_POST env2 (inr payload) s)) /\
  forall jobId url targetKeywords,
    destructure payload = inr (jobId, url, targetKeywords) ->
    workable jobId url = true ->
    exists data1 data2 cs1 cs2,
      calls run1 = [CallRequestJson; CallUpdateJobStatus jobId PROCESSING]
                     ++ cs1 ++ [CallSaveJobData jobId "website"%string data1] /\
      calls run2 = [CallRequestJson; CallUpdateJobStatus jobId PROCESSING]
                     ++ cs2 ++ [CallSaveJobData jobId "website"%string data2] /\
      Forall (fun c => exists u, c = CallFetch u \/ c = CallResponseText) (cs1 ++ cs2) /\
      jobData (db run1)
        = <[(jobId, ("website"%string : jsstring)) := data1]> (jobData s) /\
      jobData (db run2)
        = <[(jobId, ("website"%string : jsstring)) := data2]> (jobData s).
Proof.
  cbv zeta.
  destruct (POST_store_run env1 (inr payload) s) as [E1 C1].
  destruct (POST_store_run env2 (inr payload) s) as [E2 _].
  destruct (POST_store_run env2 (inr payload)
              (db (snd (run_POST env1 (inr payload) s)))) as [E3 C3].
  split.
  - rewrite E3, E2, E1. apply store_after_twice, stored_record_job.
  - intros jobId url targetKeywords Hd Hw.
    rewrite (stored_record_workable env1 payload jobId url targetKeywords Hd Hw)
      in E1, C1.
    rewrite (stored_record_workable env2 payload jobId url targetKeywords Hd Hw)
      in E3, C3.
    destruct C1 as (cs1 & C1 & F1). destruct C3 as (cs2 & C3 & F2).
    eexists _, _, cs1, cs2. split; [exact C1|]. split; [exact C3|].
    split; [apply Forall_app; split; assumption|].
    rewrite E3, E1. cbn [store_after jobData]. split; [reflexivity|].
    apply insert_insert_eq.
Qed.




End StoreProps.


(** ** Sentence extraction *)

Section SentenceProps.

(** The sentences that pass the filter of [extractSentencesWithWords]. *)
Lemma extractSentencesWithWords_elem content targetWords s :
  s ∈ extractSentencesWithWords content targetWords ->
  exists sentence word,
    sentence ∈ split false re_sentence_end content /\ s = trim sentence /\
    word ∈ targetWords /\
    includes (toLowerCase sentence) (toLowerCase word) = true /\
    (30 < length (trim sentence) < 200)%nat.
Proof.
  unfold extractSentencesWithWords. rewrite spread_set_elem, list_elem_of_In.
  rewrite in_map_iff. intros (sentence & <- & Hin).
  apply filter_In in Hin as [Hin Hcond]. apply filter_In in Hin as [Hin _].
  apply andb_true_iff in Hcond as [Hcond Hlt].
  apply andb_true_iff in Hcond as [Hword Hgt].
  apply existsb_exists in Hword as (word & Hw & Hinc).
  exists sentence, word. rewrite !list_elem_of_In.
  apply Nat.ltb_lt in Hlt, Hgt. repeat split; auto.
Qed.

(** C10, as the code has it.  Every sentence [extractSentencesWithWords]
    returns is the trimmed form of a sentence of the content that contains a
    target word, case-insensitively, before the trimming; the returned
    sentence contains that word too when the word has no white space at its
    ends.  Its trimmed length is above 30 and below 200, and the returned
    list has no duplicates. *)
Theorem extractSentencesWithWords_spec content targetWords s :
  s ∈ extractSentencesWithWords content targetWords ->
  NoDup (extractSentencesWithWords content targetWords) /\
  (30 < length (trim s) < 200)%nat /\
  exists sentence word,
    sentence ∈ split false re_sentence_end content /\ s = trim sentence /\
    word ∈ targetWords /\
    includes (toLowerCase sentence) (toLowerCase word) = true /\
    (trim word = word -> includes (toLowerCase s) (toLowerCase word) = true).
Proof.
  intros Hs. split; [apply spread_set_NoDup|].
  apply extractSentencesWithWords_elem in Hs
    as (sentence & word & Hin & -> & Hw & Hinc & Hlen).
  split; [rewrite trim_idempotent; exact Hlen|].
  exists sentence, word. repeat split; try assumption.
  intros Hclean. rewrite <- trim_toLowerCase.
  assert (Hc : trim (toLowerCase word) = toLowerCase word)
    by (rewrite trim_toLowerCase, Hclean; reflexivity).
  apply trimmed_clean in Hc as [Hc1 Hc2].
  apply includes_trim; assumption.
Qed.

End SentenceProps.

(** ** Concrete runs *)

Section Examples.

(** What the text functions make of [ex_page] and of some edge cases. *)
Example ex_page_text :
  extractTextFromHTML ex_page =
    ("Shop This mat is made of natural silver thread and helps you sleep better every night! Buy"%string
     : jsstring).
Proof. vm_compute. reflexivity. Qed.

Example ex_page_title : extractTitle ex_page = ("Shop"%string : jsstring).
Proof. vm_compute. reflexivity. Qed.

Example ex_page_keywords :
  a_keywords (analyzeWebsiteContent (extractTextFromHTML ex_page)
                [("mat"%string : jsstring); ("zinc"%string : jsstring)])
  = [("mat"%string : jsstring); ("mat"%string : jsstring);
     ("natural"%string : jsstring); ("silver"%string : jsstring);
     ("sleep"%string : jsstring)].
Proof. vm_compute. reflexivity. Qed.

Example ex_unclosed_script :
  extractTextFromHTML
    "<p>a</p><script>x<y</script>b<SCRIPT src=q>1</script >c<style>z</style>d &lt;e&gt; &amp;amp; <script>f"%string
  = ("a b 1 cd <e> &amp; f"%string : jsstring).
Proof. vm_compute. reflexivity. Qed.

Example ex_no_title :
  extractTitle "<title></title>"%string = ("Unknown Title"%string : jsstring).
Proof. vm_compute. reflexivity. Qed.

Example ex_word_boundaries :
  extractImportantWords
    "Matmat MAT-pad_x pad. Sleep, sleeps; health! cotton9 Cotton"%string []
  = [("mat"%string : jsstring); ("pad"%string : jsstring); ("sleep"%string : jsstring);
     ("health"%string : jsstring); ("cotton"%string : jsstring)].
Proof. vm_compute. reflexivity. Qed.

Example ex_split :
  split false re_sentence_end ".a.b!?c."%string
  = [[]; ("a"%string : jsstring); ("b"%string : jsstring); ("c"%string : jsstring); []].
Proof. vm_compute. reflexivity. Qed.

Example ex_parse_keywords :
  parse_keywords (JStr "mat, silver"%string) = JArr [JStr "mat"%string; JStr "silver"%string].
Proof. vm_compute. reflexivity. Qed.

(** C10 fails on the code for a target word that ends in white space: the
    sentence is matched before it is trimmed, and the trimmed sentence that is
    returned no longer contains the word. *)
Lemma extractSentencesWithWords_trimmed_word :
  extractSentencesWithWords ex_content [("with "%string : jsstring)]
    = [("This product is something that comes with"%string : jsstring)] /\
  existsb (fun word =>
             includes (toLowerCase "This product is something that comes with"%string)
                      (toLowerCase word))
          [("with "%string : jsstring)] = false.
Proof. split; vm_compute; reflexivity. Qed.

(** The theorem of C10 at the sentence of [ex_content]. *)
Lemma extractSentencesWithWords_spec_witness :
  let s : jsstring := "This product is something that comes with"%string in
  s ∈ extractSentencesWithWords ex_content [("with "%string : jsstring)] /\
  NoDup (extractSentencesWithWords ex_content [("with "%string : jsstring)]) /\
  (30 < length (trim s) < 200)%nat.
Proof.
  assert (H : ("This product is something that comes with"%string : jsstring)
              ∈ extractSentencesWithWords ex_content [("with "%string : jsstring)]).
  { apply list_elem_of_In. vm_compute. left. reflexivity. }
  split; [exact H|].
  destruct (extractSentencesWithWords_spec ex_content _ _ H) as (ND & L & _).
  split; [exact ND|exact L].
Defined.

(** The theorem of C6 at a body with a URL and no job id. *)
Lemma POST_missing_field_witness :
  own_prop [("websiteUrl"%string : jsstring, ex_url)] "jobId"%string = Undefined /\
  exists w',
    POST ex_env_down (inr (JObj [("websiteUrl"%string : jsstring, ex_url)]))
         (world0 ex_store)
      = (inr {| statusCode := 400;
                body := Required "Job ID and website URL are required"%string |}, w')
    /\ db w' = ex_store.
Proof.
  split; [reflexivity|].
  destruct (@POST_missing_field Store Store_JobDb ex_env_down [("websiteUrl"%string : jsstring, ex_url)]
              (world0 ex_store) (or_introl eq_refl)) as (w' & E & Hdb & _).
  exists w'. split; [exact E|exact Hdb].
Defined.

(** The theorem of C3 at a run whose [fetch] throws. *)
Lemma crawl_errors_contained_witness :
  crawl_raises ex_env_down ex_url (parse_keywords (JStr "mat, silver"%string)) /\
  exists w',
    POST ex_env_down (inr ex_payload) (world0 ex_store)
      = (inr {| statusCode := 200;
                body := NoData true "Website crawl completed (no data collected)"%string
                               ex_url 0 |}, w')
    /\ jobData (db w') !! (ex_job, ("website"%string : jsstring))
       = Some (CrawlError ex_url "Failed to crawl website"%string ex_now).
Proof.
  assert (R : crawl_raises ex_env_down ex_url (parse_keywords (JStr "mat, silver"%string))).
  { apply (raises_fetch _ _ _ (ThrownError "fetch failed"%string)). reflexivity. }
  split; [exact R|].
  destruct (@crawl_errors_contained Store Store_JobDb ex_env_down ex_payload ex_job ex_url
              (JStr "mat, silver"%string) (world0 ex_store)
              (snd (store_updateJobStatus ex_job "processing"%string ex_store))
              (snd (store_saveJobData ex_job "website"%string
                      (CrawlError ex_url "Failed to crawl website"%string ex_now)
                      (snd (store_updateJobStatus ex_job "processing"%string ex_store))))
              eq_refl eq_refl eq_refl eq_refl eq_refl R eq_refl eq_refl)
    as (_ & _ & w' & cs & E & Hdb & _).
  exists w'. split; [exact E|]. rewrite Hdb. apply lookup_insert_eq.
Defined.

(** The theorem of C9 at a crawl of [ex_page]. *)
Lemma crawl_size_bounds_witness :
  exists data w',
    crawlWebsiteDirectly (D := unit) (ex_env_up ex_now) ex_url
      (parse_keywords (JStr "mat, silver"%string)) (world0 tt) = (inr (Some data), w')
    /\ (length (content data) <= 5000)%nat
    /\ (length (keywords data) <= 15)%nat.
Proof.
  destruct (crawlWebsiteDirectly (D := unit) (ex_env_up ex_now) ex_url
              (parse_keywords (JStr "mat, silver"%string)) (world0 tt))
    as [[e|[data|]] w'] eqn:E.
  - exfalso. vm_compute in E. discriminate E.
  - exists data, w'. split; [reflexivity|].
    destruct (crawl_size_bounds _ _ _ _ _ _ E) as (B1 & _ & _ & _ & B5).
    split; [exact B1|exact B5].
  - exfalso. vm_compute in E. discriminate E.
Defined.

(** The theorem of C4 at a run that collects [ex_page] followed by a run
    whose [fetch] throws, on a store that holds the job: the error record of
    the last run replaces what the first run collected. *)
Lemma POST_rerun_overwrites_witness :
  let run1 := snd (run_POST (ex_env_up ex_now) (inr ex_payload) ex_store) in
  let run2 := snd (run_POST ex_env_down (inr ex_payload) (db run1)) in
  let failed := CrawlError ex_url "Failed to crawl website"%string ex_now in
  db run2 = db (snd (run_POST ex_env_down (inr ex_payload) ex_store)) /\
  (exists data1 before1,
     calls run1 = before1 ++ [CallSaveJobData ex_job "website"%string data1] /\
     jobData (db run1)
       = <[(ex_job, ("website"%string : jsstring)) := data1]> (jobData ex_store)) /\
  jobData (db run2)
    = <[(ex_job, ("website"%string : jsstring)) := failed]> (jobData ex_store).
Proof.
  cbv zeta.
  destruct (POST_rerun_overwrites (ex_env_up ex_now) ex_env_down ex_payload ex_store)
    as [E H].
  split; [exact E|].
  destruct (H ex_job ex_url (JStr "mat, silver"%string) eq_refl eq_refl)
    as (data1 & data2 & cs1 & cs2 & C1 & C2 & _ & J1 & J2).
  split.
  - exists data1, ([CallRequestJson; CallUpdateJobStatus ex_job PROCESSING] ++ cs1).
    rewrite <- app_assoc. split; [exact C1|exact J1].
  - destruct (POST_store_run ex_env_down (inr ex_payload)
                (db (snd (run_POST (ex_env_up ex_now) (inr ex_payload) ex_store))))
      as [_ C].
    change (stored_record ex_env_down (inr ex_payload))
      with (Some (ex_job, CrawlError ex_url "Failed to crawl website"%string ex_now))
      in C.
    destruct C as (cs & C & _). rewrite C2 in C.
    rewrite !app_assoc in C. apply app_inj_tail in C as [_ HC].
    injection HC as ->. exact J2.
Defined.


End Examples.

(** * Further properties of the text analysis *)

Section MatcherFacts.

(** The longest prefix of units of a class, removed. *)
Fixpoint drop_class (p : ascii -> bool) (s : jsstring) : jsstring :=
  match s with
  | c :: s' => if p c then drop_class p s' else s
  | [] => []
  end.

Lemma drop_class_length p s : (length (drop_class p s) <= length s)%nat.
Proof.
  induction s as [|c s IH]; simpl; [lia|]. destruct (p c); simpl; lia.
Qed.

(** A greedy run of a class before a continuation that accepts takes every
    unit of the class there is. *)
Lemma star_loop_class ignoreCase p fuel st :
  (length (rest st) <= fuel)%nat ->
  exists st',
    star_loop (run ignoreCase (Cls p)) true fuel st Some = Some st'
    /\ rest st' = drop_class p (rest st) /\ cap st' = cap st.
Proof.
  assert (Hm : forall st (k : cont),
            run ignoreCase (Cls p) st k =
              match rest st with
              | x :: s' => if p x then k (advance st x s') else None
              | [] => None
              end) by reflexivity.
  generalize dependent (run ignoreCase (Cls p)). intros m Hm.
  revert st. induction fuel as [|fuel IH]; intros st Hlen; simpl.
  - destruct (rest st) as [|x s'] eqn:E; [|simpl in Hlen; lia].
    exists st. rewrite E. auto.
  - rewrite Hm. destruct (rest st) as [|x s'] eqn:E.
    + exists st. rewrite E. auto.
    + destruct (p x) eqn:Ep.
      * cbn [advance rest].
        destruct (Nat.ltb_spec (length s') (length (x :: s'))); [|simpl in *; lia].
        destruct (IH (advance st x s')) as (st' & E' & R & C).
        { simpl in *. lia. }
        rewrite E'. exists st'. simpl in R, C |- *. rewrite Ep. auto.
      * exists st. rewrite E. simpl. rewrite Ep. auto.
Qed.

(** [/[class]+/] at a position: it matches exactly when the unit there is
    of the class, and then takes the whole run. *)
Lemma exec_plus_class ignoreCase p prev s :
  exec ignoreCase (Plus (Cls p)) prev s =
    match s with
    | c :: s' =>
        if p c then Some (S (length s' - length (drop_class p s')), None) else None
    | [] => None
    end.
Proof.
  unfold exec, Plus. simpl. destruct s as [|c s']; [reflexivity|].
  destruct (p c); [|reflexivity].
  destruct (star_loop_class ignoreCase p (length s')
              (advance {| prev := prev; rest := c :: s'; cap := None |} c s'))
    as (st' & E & R & C); [simpl; lia|].
  simpl in E. rewrite E, R, C. simpl.
  pose proof (drop_class_length p s').
  destruct (length (drop_class p s')) eqn:El; f_equal; f_equal; lia.
Qed.

(** The units of a text after [replace]: those of the text, and those of the
    replacement. *)
Lemma replace_from_units (P : ascii -> Prop) ignoreCase r repl skip prev s :
  Forall P repl -> Forall P s ->
  Forall P (replace_from ignoreCase r repl skip prev s).
Proof.
  intros Hrepl. revert skip prev. induction s as [|c s IH]; intros skip prev Hs; simpl.
  - destruct skip; [|constructor].
    destruct (exec ignoreCase r prev []); [assumption|constructor].
  - apply Forall_cons_1 in Hs as [Hc Hs]. destruct skip as [|skip]; [|apply IH, Hs].
    destruct (exec ignoreCase r prev (c :: s)) as [[[|n] g]|].
    + apply Forall_app. split; [assumption|]. constructor; [assumption|apply IH, Hs].
    + apply Forall_app. split; [assumption|apply IH, Hs].
    + constructor; [assumption|apply IH, Hs].
Qed.

(** After [replace(/[class]+/g, repl)] a unit of the class comes from the
    replacement. *)
Lemma replace_plus_class (P : ascii -> Prop) ignoreCase p repl skip prev s :
  Forall P repl -> (forall c, p c = false -> P c) ->
  Forall P (replace_from ignoreCase (Plus (Cls p)) repl skip prev s).
Proof.
  intros Hrepl Hp. revert skip prev. induction s as [|c s IH]; intros skip prev; simpl.
  - destruct skip; constructor.
  - destruct skip as [|skip]; [|apply IH].
    rewrite exec_plus_class. destruct (p c) eqn:Ep.
    + apply Forall_app. split; [assumption|apply IH].
    + constructor; [apply Hp, Ep|apply IH].
Qed.

(** The literal unit a pattern starts with. *)
Fixpoint first_unit (r : regex) : option ascii :=
  match r with
  | Chr c => Some c
  | Cat r1 _ => first_unit r1
  | _ => None
  end.

Lemma run_first_unit ignoreCase r c st k :
  first_unit r = Some c ->
  (forall x, head (rest st) = Some x ->
             canonicalize ignoreCase x <> canonicalize ignoreCase c) ->
  run ignoreCase r st k = None.
Proof.
  revert k. induction r as [c'| | |r1 IH1 r2 IH2| | | |]; intros k; simpl; try discriminate.
  - intros [= ->] H. destruct (rest st) as [|x s']; [reflexivity|].
    rewrite bool_decide_eq_false_2; [reflexivity|]. apply H. reflexivity.
  - intros H1 H. apply IH1; assumption.
Qed.

(** A pattern that starts with a literal unit matches only where a unit that
    is the same but for case stands. *)
Lemma exec_first_unit ignoreCase c r prev s :
  first_unit r = Some c ->
  (forall x, x ∈ s -> canonicalize ignoreCase x <> canonicalize ignoreCase c) ->
  exec ignoreCase r prev s = None.
Proof.
  intros Hr H. unfold exec. rewrite (run_first_unit ignoreCase r c); [reflexivity|exact Hr|].
  simpl. intros x Hx. apply H. destruct s; [discriminate|].
  injection Hx as ->. left.
Qed.

(** Where the pattern matches nowhere, [replace] returns the text. *)
Lemma replace_from_absent ignoreCase c r repl prev s :
  first_unit r = Some c ->
  (forall x, x ∈ s -> canonicalize ignoreCase x <> canonicalize ignoreCase c) ->
  replace_from ignoreCase r repl O prev s = s.
Proof.
  intros Hr. revert prev. induction s as [|x s IH]; intros prev H.
  - simpl. rewrite (exec_first_unit ignoreCase c); [reflexivity|exact Hr|exact H].
  - cbn [replace_from]. rewrite (exec_first_unit ignoreCase c); [|exact Hr|exact H].
    f_equal. apply IH. intros y Hy. apply H. right. exact Hy.
Qed.

Lemma replace_spaces_absent ignoreCase repl prev s :
  Forall (fun c => is_space c = false) s ->
  replace_from ignoreCase re_spaces repl O prev s = s.
Proof.
  revert prev. induction s as [|x s IH]; intros prev H.
  - reflexivity.
  - apply Forall_cons_1 in H as [Hx H]. cbn [replace_from]. unfold re_spaces.
    rewrite exec_plus_class, Hx. f_equal. apply IH, H.
Qed.

(** What a literal matches: units equal to its own but for case. *)
Lemma run_lit ignoreCase w st k res :
  run ignoreCase (lit w) st k = Some res ->
  exists x st',
    rest st = x ++ rest st' /\ cap st' = cap st /\
    Forall2 (fun a b => canonicalize ignoreCase a = canonicalize ignoreCase b) x w /\
    k st' = Some res.
Proof.
  revert st. induction w as [|c w IH]; intros st; simpl.
  - intros H. exists [], st. auto.
  - destruct (rest st) as [|a s'] eqn:E; [discriminate|].
    case_bool_decide as Hc; [|discriminate]. intros H.
    apply IH in H as (x & st' & R & C & F & K). simpl in R, C.
    exists (a :: x), st'. rewrite R. auto.
Qed.

Lemma run_alts ignoreCase ws st k res :
  run ignoreCase (alts ws) st k = Some res ->
  exists w x st',
    w ∈ ws /\ rest st = x ++ rest st' /\ cap st' = cap st /\
    Forall2 (fun a b => canonicalize ignoreCase a = canonicalize ignoreCase b) x w /\
    k st' = Some res.
Proof.
  induction ws as [|w ws IH]; [simpl; destruct (rest st); discriminate|].
  destruct ws as [|w' ws].
  - simpl. intros H. apply run_lit in H as (x & st' & H). exists w, x, st'.
    split; [left|exact H].
  - change (alts (w :: w' :: ws)) with (Alt (lit w) (alts (w' :: ws))).
    cbn [run]. destruct (run ignoreCase (lit w) st k) as [res'|] eqn:E.
    + intros [= <-]. apply run_lit in E as (x & st' & H). exists w, x, st'.
      split; [left|exact H].
    + intros H. apply IH in H as (w0 & x & st' & Hin & H). exists w0, x, st'.
      split; [right; exact Hin|exact H].
Qed.

End MatcherFacts.

Section TextFacts.

Lemma trimStart_Forall (P : ascii -> Prop) s : Forall P s -> Forall P (trimStart s).
Proof.
  intros H. destruct (trimStart_suffix s) as [p E]. rewrite E in H.
  apply Forall_app in H as [_ H]. exact H.
Qed.

Lemma trim_Forall (P : ascii -> Prop) s : Forall P s -> Forall P (trim s).
Proof.
  intros H. unfold trim, trimEnd.
  apply List.Forall_rev, trimStart_Forall, List.Forall_rev, trimStart_Forall, H.
Qed.

(** A string is its trimmed form between two runs of white space. *)
Lemma trim_inside s : exists p q, s = p ++ trim s ++ q.
Proof.
  destruct (trimStart_suffix s) as [p E].
  destruct (trimEnd_prefix (trimStart s)) as [q E'].
  exists p, q. unfold trim. rewrite <- E'. exact E.
Qed.

Lemma trim_length s : (length (trim s) <= length s)%nat.
Proof.
  destruct (trim_inside s) as (p & q & E). rewrite E at 2.
  rewrite !length_app. lia.
Qed.

(** The pieces of a [split] are stretches of the text. *)
Lemma split_from_inside ignoreCase r skip prev piece s x :
  skip = O \/ piece = [] ->
  x ∈ split_from ignoreCase r skip prev piece s ->
  exists p q, rev piece ++ s = p ++ x ++ q.
Proof.
  revert skip prev piece. induction s as [|c s IH]; intros skip prev piece Hinv; simpl.
  - intros ->%list_elem_of_singleton. exists [], []. rewrite !app_nil_r. reflexivity.
  - destruct skip as [|skip].
    + destruct (exec ignoreCase r prev (c :: s)) as [[[|n] g]|].
      * destruct piece as [|a piece].
        -- intros H. apply IH in H as (p & q & E); [|auto]. exists p, q. exact E.
        -- intros [->|H]%elem_of_cons.
           ++ exists [], (c :: s). reflexivity.
           ++ apply IH in H as (p & q & E); [|auto]. simpl in E.
              exists (rev (a :: piece) ++ p), q. rewrite <- !app_assoc, <- E. reflexivity.
      * intros [->|H]%elem_of_cons.
        -- exists [], (c :: s). reflexivity.
        -- apply IH in H as (p & q & E); [|auto]. simpl in E.
           exists (rev piece ++ c :: p), q. rewrite <- !app_assoc. simpl. rewrite E.
           reflexivity.
      * intros H. apply IH in H as (p & q & E); [|auto]. exists p, q.
        rewrite <- E. simpl. rewrite <- app_assoc. reflexivity.
    + destruct Hinv as [Hinv | ->]; [discriminate|].
      intros H. apply IH in H as (p & q & E); [|auto]. simpl in E |- *.
      exists (c :: p), q. simpl. rewrite E. reflexivity.
Qed.

Lemma split_inside ignoreCase r s x :
  x ∈ split ignoreCase r s -> exists p q, s = p ++ x ++ q.
Proof.
  unfold split. intros H.
  assert (H' : x ∈ split_from ignoreCase r O None [] s).
  { destruct s; [|exact H].
    destruct (exec ignoreCase r None []); [|exact H]. exfalso. eapply elem_of_nil, H. }
  apply split_from_inside in H'; auto.
Qed.

(** The pieces of a [split] at runs of a class have no unit of the class. *)
Lemma split_from_plus_class ignoreCase p skip prev piece s :
  Forall (fun c => p c = false) piece ->
  Forall (Forall (fun c => p c = false))
         (split_from ignoreCase (Plus (Cls p)) skip prev piece s).
Proof.
  revert skip prev piece. induction s as [|c s IH]; intros skip prev piece Hp.
  - simpl. constructor; [|constructor]. apply List.Forall_rev, Hp.
  - cbn [split_from]. destruct skip as [|skip]; [|apply IH, Hp].
    rewrite exec_plus_class. destruct (p c) eqn:Ep.
    + constructor; [apply List.Forall_rev, Hp|]. apply IH. constructor.
    + destruct piece; apply IH; constructor; assumption.
Qed.

Lemma split_plus_class ignoreCase p s :
  Forall (Forall (fun c => p c = false)) (split ignoreCase (Plus (Cls p)) s).
Proof.
  unfold split. destruct s.
  - rewrite exec_plus_class. apply split_from_plus_class. constructor.
  - apply split_from_plus_class. constructor.
Qed.

End TextFacts.

Section TextProps.

(** A sentence as the analysis keeps it: between 31 and 199 units, trimmed,
    and containing one of the words, whatever the case. *)
Definition kept_sentence (words : list jsstring) (s : jsstring) : Prop :=
  (30 < length s < 200)%nat /\ trim s = s /\
  exists word, word ∈ words /\ includes (toLowerCase s) word = true.

(** Words in lower case and without white space at their ends. *)
Definition plain_words (words : list jsstring) : bool :=
  forallb (fun w => bool_decide (trim w = w) && bool_decide (toLowerCase w = w)) words.

Lemma extractSentencesWithWords_kept content words s :
  plain_words words = true ->
  s ∈ extractSentencesWithWords content words -> kept_sentence words s.
Proof.
  intros Hplain Hs.
  apply extractSentencesWithWords_elem in Hs
    as (sentence & word & Hin & -> & Hw & Hinc & Hlen).
  unfold plain_words in Hplain. rewrite forallb_forall in Hplain.
  apply list_elem_of_In in Hw. pose proof (Hplain word Hw) as Hword.
  apply andb_true_iff in Hword as [Ht Hl].
  apply bool_decide_eq_true in Ht, Hl. rewrite Hl in Hinc.
  split; [exact Hlen|]. split; [apply trim_idempotent|].
  exists word. split; [apply list_elem_of_In, Hw|].
  rewrite <- trim_toLowerCase. apply trimmed_clean in Ht as [H1 H2].
  apply includes_trim; assumption.
Qed.

(** X1. Every sentence [extractSentencesWithWords] returns stands in the
    content as it is returned, has no white space at its ends, and has none
    of the units [.], [!] and [?]. *)
Theorem extractSentencesWithWords_verbatim content targetWords s :
  s ∈ extractSentencesWithWords content targetWords ->
  includes content s = true /\ trim s = s /\
  Forall (fun c => c <> "."%char /\ c <> "!"%char /\ c <> "?"%char) s.
Proof.
  intros Hs. apply extractSentencesWithWords_elem in Hs
    as (sentence & word & Hin & -> & _).
  split; [|split].
  - apply includes_spec. apply split_inside in Hin as (p & q & ->).
    destruct (trim_inside sentence) as (p' & q' & E).
    exists (p ++ p'), (q' ++ q). rewrite E at 1. rewrite <- !app_assoc. reflexivity.
  - apply trim_idempotent.
  - apply trim_Forall. unfold re_sentence_end in Hin.
    match type of Hin with
    | _ ∈ split _ (Plus (Cls ?p)) _ =>
        pose proof (split_plus_class false p content) as H
    end.
    rewrite List.Forall_forall in H.
    apply list_elem_of_In in Hin. apply H in Hin.
    revert Hin. apply List.Forall_impl. intros c Hc.
    apply orb_false_iff in Hc as [Hc H3]. apply orb_false_iff in Hc as [H1 H2].
    apply bool_decide_eq_false in H1, H2, H3. auto.
Qed.

(** X2. Without target words, or on a content of at most 30 units,
    [extractSentencesWithWords] returns nothing. *)
Theorem extractSentencesWithWords_nothing content targetWords :
  targetWords = [] \/ (length content <= 30)%nat ->
  extractSentencesWithWords content targetWords = [].
Proof.
  intros H. apply elem_of_nil_inv. intros s Hs.
  apply extractSentencesWithWords_elem in Hs
    as (sentence & word & Hin & -> & Hw & _ & Hlen).
  destruct H as [-> | H]; [eapply elem_of_nil, Hw|].
  apply split_inside in Hin as (p & q & ->).
  pose proof (trim_length sentence). rewrite !length_app in H. lia.
Qed.

(** X3. The title [extractTitle] returns has no white space at its ends. *)
Theorem extractTitle_trimmed html : trim (extractTitle html) = extractTitle html.
Proof.
  pose proof (re_title_captures html) as H.
  destruct (match_first true re_title html) as [[whole [g|]]|].
  - rewrite H. apply trim_idempotent.
  - destruct H.
  - rewrite H. reflexivity.
Qed.

Lemma trim_no_space s : Forall (fun c => is_space c = false) s -> trim s = s.
Proof.
  intros H. apply trim_id.
  - destruct H; [exact I|assumption].
  - unfold ends_clean. apply List.Forall_rev in H. destruct H; [exact I|assumption].
Qed.

Lemma canonicalize_mark ignoreCase x c :
  c = "<"%char \/ c = "&"%char ->
  canonicalize ignoreCase x = canonicalize ignoreCase c -> x = c.
Proof.
  intros [-> | ->]; destruct ignoreCase, x as [[] [] [] [] [] [] [] []];
    vm_compute; congruence.
Qed.

(** X4. A text without [<], [&] and white space is its own extracted text. *)
Theorem extractTextFromHTML_plain html :
  Forall (fun c => c <> "<"%char /\ c <> "&"%char /\ is_space c = false) html ->
  extractTextFromHTML html = html.
Proof.
  intros H.
  assert (Hlt : forall ic x, x ∈ html ->
                  canonicalize ic x <> canonicalize ic "<"%char).
  { intros ic x Hx Hc. apply canonicalize_mark in Hc; [|auto].
    rewrite List.Forall_forall in H. apply list_elem_of_In, H in Hx. tauto. }
  assert (Hamp : forall ic x, x ∈ html ->
                   canonicalize ic x <> canonicalize ic "&"%char).
  { intros ic x Hx Hc. apply canonicalize_mark in Hc; [|auto].
    rewrite List.Forall_forall in H. apply list_elem_of_In, H in Hx. tauto. }
  assert (Hsp : Forall (fun c => is_space c = false) html).
  { revert H. apply List.Forall_impl. tauto. }
  unfold extractTextFromHTML, replace_all.
  rewrite (replace_from_absent true "<" re_script); [|reflexivity|apply Hlt].
  rewrite (replace_from_absent true "<" re_style); [|reflexivity|apply Hlt].
  rewrite (replace_from_absent false "<" re_tag); [|reflexivity|apply Hlt].
  rewrite replace_spaces_absent; [|exact Hsp].
  rewrite trim_no_space; [|exact Hsp].
  rewrite (replace_from_absent false "&" (lit "&nbsp;"%string)); [|reflexivity|apply Hamp].
  rewrite (replace_from_absent false "&" (lit "&amp;"%string)); [|reflexivity|apply Hamp].
  rewrite (replace_from_absent false "&" (lit "&lt;"%string)); [|reflexivity|apply Hamp].
  rewrite (replace_from_absent false "&" (lit "&gt;"%string)); [|reflexivity|apply Hamp].
  rewrite (replace_from_absent false "&" (lit "&quot;"%string)); [|reflexivity|apply Hamp].
  apply (replace_from_absent false "&" (lit "&#39;"%string)); [reflexivity|apply Hamp].
Qed.

(** X5. The only white space in an extracted text is the space: tabs, line
    ends and no-break spaces of the page are gone. *)
Theorem extractTextFromHTML_spaces html :
  Forall (fun c => is_space c = true -> c = " "%char) (extractTextFromHTML html).
Proof.
  unfold extractTextFromHTML, replace_all.
  repeat (apply replace_from_units;
          [repeat constructor; vm_compute; congruence|]).
  apply trim_Forall. unfold re_spaces. apply replace_plus_class.
  - repeat constructor.
  - intros c ->. discriminate.
Qed.

End TextProps.

Section KeywordProps.

(** The units 0..255. *)
Definition all_units : list ascii := List.map ascii_of_nat (seq 0 256).

Lemma all_units_complete (a : ascii) : In a all_units.
Proof.
  unfold all_units. rewrite <- (ascii_nat_embedding a).
  apply in_map, in_seq. pose proof (nat_ascii_bounded a). lia.
Qed.

(** A lower-case letter a to z. *)
Definition is_az (c : ascii) : bool :=
  let n := N_of_ascii c in ((97 <=? n) && (n <=? 122))%N.

(** A unit that equals a letter a to z but for case has that letter as its
    lower case. *)
Lemma canonicalize_letter a b :
  is_az b = true -> canonicalize true a = canonicalize true b -> lower_unit a = b.
Proof.
  assert (Hall :
    forallb (fun a =>
      forallb (fun b =>
        implb (is_az b && bool_decide (canonicalize true a = canonicalize true b))
              (bool_decide (lower_unit a = b))) all_units) all_units = true)
    by (vm_compute; reflexivity).
  rewrite forallb_forall in Hall. specialize (Hall a (all_units_complete a)).
  rewrite forallb_forall in Hall. specialize (Hall b (all_units_complete b)).
  intros Hb Hc. rewrite Hb, bool_decide_eq_true_2 in Hall by exact Hc.
  apply bool_decide_eq_true in Hall. exact Hall.
Qed.

Lemma toLowerCase_letters x w :
  forallb is_az w = true ->
  Forall2 (fun a b => canonicalize true a = canonicalize true b) x w ->
  toLowerCase x = w.
Proof.
  intros Hw F. induction F as [|a b x w Hab F IH]; [reflexivity|].
  simpl in Hw. apply andb_true_iff in Hw as [Hb Hw]. simpl.
  rewrite (canonicalize_letter a b Hb Hab), (IH Hw). reflexivity.
Qed.

(** What [/\b(w1|w2|...)\b/i] matches at a position: one of the words, but
    for case. *)
Lemma exec_word_terms ws before s n g :
  exec true (WordB >>> Group (alts ws) >>> WordB) before s = Some (n, g) ->
  exists w, w ∈ ws /\
    Forall2 (fun a b => canonicalize true a = canonicalize true b) (firstn n s) w.
Proof.
  unfold exec. cbn [run prev rest cap].
  destruct (xorb _ _); [|discriminate].
  destruct (run true (alts ws) _ _) as [res|] eqn:E; [|discriminate].
  intros [= <- _]. apply run_alts in E as (w & x & st' & Hin & R & _ & F & K).
  cbn [prev rest cap] in K, R. destruct (xorb _ _); [|discriminate].
  injection K as <-. cbn [rest]. exists w. split; [exact Hin|].
  rewrite R. rewrite length_app.
  replace (length x + length (rest st') - length (rest st'))%nat with (length x) by lia.
  rewrite firstn_app, firstn_all, Nat.sub_diag. simpl. rewrite app_nil_r. exact F.
Qed.

Lemma match_all_from_word_terms ws skip prev s :
  Forall (fun x => exists w, w ∈ ws /\
            Forall2 (fun a b => canonicalize true a = canonicalize true b) x w)
         (match_all_from true (WordB >>> Group (alts ws) >>> WordB) skip prev s).
Proof.
  revert skip prev. induction s as [|c s IH]; intros skip prev.
  - cbn [match_all_from]. destruct skip; [|constructor].
    destruct (exec true _ prev []) as [[n g]|] eqn:E; [|constructor].
    constructor; [|constructor]. apply exec_word_terms in E. destruct n; exact E.
  - cbn [match_all_from]. destruct skip as [|skip]; [|apply IH].
    destruct (exec true _ prev (c :: s)) as [[[|n] g]|] eqn:E; [| |apply IH].
    + constructor; [|apply IH]. apply exec_word_terms in E. exact E.
    + constructor; [|apply IH]. apply exec_word_terms in E. exact E.
Qed.

Lemma extractImportantWords_terms content targetKeywords k :
  k ∈ extractImportantWords content targetKeywords -> k ∈ productTermList.
Proof.
  unfold extractImportantWords, slice0. intros Hk.
  eapply elem_of_sublist in Hk; [|apply sublist_take].
  apply spread_set_elem, list_elem_of_In, in_map_iff in Hk as (x & <- & Hx).
  pose proof (match_all_from_word_terms productTermList O None content) as F.
  rewrite List.Forall_forall in F. apply F in Hx as (w & Hw & F2).
  rewrite (toLowerCase_letters x w); [exact Hw| |exact F2].
  assert (Hall : forallb (forallb is_az) productTermList = true) by reflexivity.
  rewrite forallb_forall in Hall. apply Hall, list_elem_of_In, Hw.
Qed.

(** X6. The additional keywords of [extractImportantWords] are at most ten,
    without duplicates, and each is one of the sixteen product terms, in
    lower case. *)
Theorem extractImportantWords_vocabulary content targetKeywords :
  let terms := extractImportantWords content targetKeywords in
  (length terms <= 10)%nat /\ NoDup terms /\ forall k, k ∈ terms -> k ∈ productTermList.
Proof.
  cbv zeta. split; [|split].
  - apply List.firstn_le_length.
  - unfold extractImportantWords, slice0.
    eapply sublist_NoDup; [apply spread_set_NoDup|apply sublist_take].
  - apply extractImportantWords_terms.
Qed.

(** X7. The keywords of an analysis are target keywords that occur in the
    content, whatever the case, and product terms; with at most fifteen
    target keywords, every one that occurs is among them. *)
Theorem analyzeWebsiteContent_keywords content targetKeywords :
  let found k := includes (toLowerCase content) (toLowerCase k) = true in
  let result := a_keywords (analyzeWebsiteContent content targetKeywords) in
  (forall k, k ∈ result -> (k ∈ targetKeywords /\ found k) \/ k ∈ productTermList) /\
  ((length targetKeywords <= 15)%nat ->
   forall k, k ∈ targetKeywords -> found k -> k ∈ result).
Proof.
  cbv zeta. unfold analyzeWebsiteContent, slice0. cbn [a_keywords]. split.
  - intros k Hk. eapply elem_of_sublist in Hk; [|apply sublist_take].
    apply elem_of_app in Hk as [Hk|Hk].
    + left. apply list_elem_of_In, filter_In in Hk as [Hin Hf].
      split; [apply list_elem_of_In, Hin|exact Hf].
    + right. apply (extractImportantWords_terms content targetKeywords k Hk).
  - intros Hlen k Hin Hf.
    rewrite take_app.
    apply elem_of_app. left. rewrite take_ge.
    + apply list_elem_of_In, filter_In. split; [apply list_elem_of_In, Hin|exact Hf].
    + pose proof (List.filter_length_le
                    (fun k => includes (toLowerCase content) (toLowerCase k))
                    targetKeywords). lia.
Qed.

End KeywordProps.

Section SentenceLists.

Lemma plain_valueWords : plain_words valueWords = true.
Proof. vm_compute. reflexivity. Qed.

Lemma plain_featureWords : plain_words featureWords = true.
Proof. vm_compute. reflexivity. Qed.

Lemma plain_benefitWords : plain_words benefitWords = true.
Proof. vm_compute. reflexivity. Qed.

Lemma slice0_kept words content n :
  plain_words words = true ->
  NoDup (slice0 n (extractSentencesWithWords content words)) /\
  forall s, s ∈ slice0 n (extractSentencesWithWords content words) ->
            kept_sentence words s.
Proof.
  intros Hplain. unfold slice0. split.
  - eapply sublist_NoDup; [apply spread_set_NoDup|apply sublist_take].
  - intros s Hs. eapply elem_of_sublist in Hs; [|apply sublist_take].
    apply (extractSentencesWithWords_kept content); assumption.
Qed.

(** X8. The value propositions, features and benefits of an analysis are
    lists without duplicates of trimmed sentences of 31 to 199 units, each
    containing, whatever the case, one of the words of its list. *)
Theorem analyzeWebsiteContent_sentences content targetKeywords :
  let a := analyzeWebsiteContent content targetKeywords in
  (NoDup (a_valuePropositions a) /\
   forall s, s ∈ a_valuePropositions a -> kept_sentence valueWords s) /\
  (NoDup (a_features a) /\
   forall s, s ∈ a_features a -> kept_sentence featureWords s) /\
  (NoDup (a_benefits a) /\
   forall s, s ∈ a_benefits a -> kept_sentence benefitWords s).
Proof.
  cbv zeta. unfold analyzeWebsiteContent.
  cbn [a_valuePropositions a_features a_benefits].
  split; [|split].
  - exact (slice0_kept valueWords content 8 plain_valueWords).
  - exact (slice0_kept featureWords content 10 plain_featureWords).
  - exact (slice0_kept benefitWords content 10 plain_benefitWords).
Qed.

End SentenceLists.

(** * Further properties of the health route *)

Section HealthMore.
Import Health.
Context {Stats : Type}.
Implicit Types (env : Env Stats) (st : St).

(** Whether an awaited call returned. *)
Definition returned {A} (answer : Thrown + A) : bool :=
  match answer with
  | inr _ => true
  | inl _ => false
  end.

(** Every required variable is set, and not to the empty string. *)
Definition env_all_set env : bool :=
  forallb (fun v => negb (env_missing env v)) requiredEnvVars.

Lemma filter_nil_forallb {A} (f : A -> bool) (l : list A) :
  List.filter f l = [] <-> forallb (fun x => negb (f x)) l = true.
Proof.
  induction l as [|x l IH]; simpl; [tauto|].
  destruct (f x); simpl; [split; discriminate|exact IH].
Qed.

Lemma environment_check_all_set env :
  ec_status (environment_check env) =
    (if env_all_set env then HEALTHY else UNHEALTHY)
  /\ ec_missing (environment_check env) = List.filter (env_missing env) requiredEnvVars.
Proof.
  unfold environment_check, env_all_set.
  destruct (List.filter (env_missing env) requiredEnvVars) as [|v l] eqn:E.
  - apply filter_nil_forallb in E. rewrite E. split; reflexivity.
  - assert (Hn : forallb (fun v => negb (env_missing env v)) requiredEnvVars = false).
    { apply not_true_is_false. intros H. apply filter_nil_forallb in H. congruence. }
    rewrite Hn. split; reflexivity.
Qed.

(** X9. The [missing] list of the environment entry holds the required
    variables that are unset or set to the empty string, in the order of the
    source; the entry is healthy exactly when there is none, and otherwise
    its message lists them. *)
Theorem environment_check_missing env :
  let entry := environment_check env in
  (forall v, v ∈ ec_missing entry <->
             v ∈ requiredEnvVars
             /\ (process_env env v = None \/ process_env env v = Some [])) /\
  (ec_status entry = HEALTHY <-> ec_missing entry = []) /\
  (ec_status entry = UNHEALTHY <-> ec_missing entry <> []) /\
  (ec_missing entry <> [] ->
   ec_message entry = ("Missing environment variables: "%string : jsstring)
                        ++ join ", "%string (ec_missing entry)).
Proof.
  cbv zeta. destruct (environment_check_all_set env) as [Hs Hm].
  destruct statuses_distinct as (_ & D2 & _).
  split; [|split; [|split]].
  - intros v. rewrite Hm, list_elem_of_In, filter_In, <- list_elem_of_In.
    unfold env_missing. destruct (process_env env v) as [[|c x]|];
      intuition (discriminate || auto).
  - rewrite Hs, Hm. unfold env_all_set. rewrite filter_nil_forallb.
    destruct (forallb _ requiredEnvVars); split; intros H; try reflexivity;
      discriminate H.
  - rewrite Hs, Hm. unfold env_all_set. rewrite filter_nil_forallb.
    destruct (forallb _ requiredEnvVars); split; intros H.
    + discriminate H.
    + exfalso. apply H. reflexivity.
    + discriminate.
    + reflexivity.
  - unfold environment_check.
    destruct (List.filter (env_missing env) requiredEnvVars) as [|v l]; simpl.
    + intros H. contradiction.
    + reflexivity.
Qed.

Lemma entry_status_returned {A} (answer : Thrown + A) :
  entry_status answer = (if returned answer then HEALTHY else UNHEALTHY).
Proof. destruct answer; reflexivity. Qed.

(** X10. The summary of GET /health counts the probes that returned, plus one
    when the environment is complete; the status and the code follow from
    that count alone: 200 at four, 503 at none, 207 between. *)
Theorem GET_summary_counts env st :
  exists r st',
    GET env st = (inr r, st') /\
    let n := Z.b2z (returned (sql_select1 env)) + Z.b2z (returned (kv_ping env))
             + Z.b2z (returned (getQueueStats env)) + Z.b2z (env_all_set env) in
    healthy (summary (body r)) = n /\ total (summary (body r)) = 4 /\
    status (body r) =
      (if n =? 4 then HEALTHY else if 0 <? n then DEGRADED else UNHEALTHY) /\
    statusCode r = (if n =? 4 then 200 else if 0 <? n then 207 else 503).
Proof.
  destruct (GET_run env st) as (db & kv & q & ts & st' & E & _ & [S1 _] & [S2 _] & [S3 _]).
  eexists _, st'. split; [exact E|].
  cbn [body summary healthy total status statusCode]. unfold check_statuses.
  cbn [database redis queue environment].
  destruct (environment_check_all_set env) as [S4 _].
  rewrite S1, S2, S3, S4, !entry_status_returned.
  destruct (returned (sql_select1 env)), (returned (kv_ping env)),
    (returned (getQueueStats env)), (env_all_set env); vm_compute; auto.
Qed.

End HealthMore.

Section HealthTimes.
Import Health.
Context {Stats : Type}.
Implicit Types (env : Env Stats) (st : St).

Lemma database_check_exact env st :
  database_check env st =
    (inr match sql_select1 env with
         | inr _ =>
             {| tc_status := HEALTHY;
                tc_message := "Database connection successful"%string;
                tc_responseTime :=
                  clock env (S (readings st)) - clock env (readings st) |}
         | inl error =>
             {| tc_status := UNHEALTHY;
                tc_message := ("Database error: "%string : jsstring)
                                ++ error_message "Unknown database error"%string error;
                tc_responseTime := 0 |}
         end,
     {| readings := ((if returned (sql_select1 env) then 2 else 1) + readings st)%nat;
        calls := calls st ++ [CallSql] |}).
Proof.
  unfold database_check, try_catch, bind, Date_now, invoke, ret.
  destruct (sql_select1 env) as [e|[]]; reflexivity.
Qed.

Lemma redis_check_exact env st :
  redis_check env st =
    (inr match kv_ping env with
         | inr _ =>
             {| tc_status := HEALTHY;
                tc_message := "Redis connection successful"%string;
                tc_responseTime :=
                  clock env (S (readings st)) - clock env (readings st) |}
         | inl error =>
             {| tc_status := UNHEALTHY;
                tc_message := ("Redis error: "%string : jsstring)
                                ++ error_message "Unknown Redis error"%string error;
                tc_responseTime := 0 |}
         end,
     {| readings := ((if returned (kv_ping env) then 2 else 1) + readings st)%nat;
        calls := calls st ++ [CallKvPing] |}).
Proof.
  unfold redis_check, try_catch, bind, Date_now, invoke, ret.
  destruct (kv_ping env) as [e|[]]; reflexivity.
Qed.

(** X11. In the document of GET /health the timestamp is the first reading of
    the clock, and the response time of the database and of the key-value
    entry is the time between the two readings around the probe, or 0 for a
    probe that threw. *)
Theorem GET_response_times env st :
  exists r st',
    GET env st = (inr r, st') /\
    let n := readings st in
    let m := ((if returned (sql_select1 env) then 3 else 2) + n)%nat in
    timestamp (body r) = toISOString env (clock env n) /\
    tc_responseTime (database (checks (body r))) =
      (if returned (sql_select1 env)
       then clock env (2 + n) - clock env (1 + n) else 0) /\
    tc_responseTime (redis (checks (body r))) =
      (if returned (kv_ping env) then clock env (S m) - clock env m else 0).
Proof.
  unfold GET, Date_toISOString.
  unfold bind at 1 2. unfold Date_now at 1. unfold ret at 1.
  unfold bind. rewrite database_check_exact. cbv beta iota.
  rewrite redis_check_exact. cbv beta iota.
  match goal with
  | |- context [queue_check env ?s] =>
      destruct (queue_check_run env s) as (q & st4 & E3 & _)
  end.
  rewrite E3. unfold ret.
  eexists _, st4. split; [reflexivity|].
  cbn [body timestamp checks database redis].
  destruct (sql_select1 env) as [e1|[]], (kv_ping env) as [e2|[]]; cbn; auto.
Qed.

End HealthTimes.

(** * Further properties of the collector and its endpoint *)


(** The calls of an endpoint run after the reading of the body: none; or
    the status write alone; or the status write, the calls of the crawl and
    one save for [website]. *)
Inductive endpoint_calls : list Call -> Prop :=
| calls_none : endpoint_calls []
| calls_status jobId :
    endpoint_calls [CallUpdateJobStatus jobId PROCESSING]
| calls_saved jobId url fetched data :
    Forall (fun c => c = CallFetch url \/ c = CallResponseText) fetched ->
    endpoint_calls (CallUpdateJobStatus jobId PROCESSING
                      :: fetched ++ [CallSaveJobData jobId "website"%string data]).

Section CollectorMore.
Context {D : Type}.
Implicit Types (env : Env) (w : World D) (url kws payload jobId : JsVal).

Lemma mapM_as_string_JStr (f : jsstring -> jsstring) (l : list jsstring) :
  mapM as_string (List.map (fun k => JStr (f k)) l) = Some (List.map f l).
Proof.
  apply mapM_Some. induction l as [|x l IH]; simpl; constructor; auto.
Qed.

(** The keywords the analysis gets, by the kind of [targetKeywords]: a
    string is split at its commas and every piece trimmed; an array of
    strings is taken as it is; a value that is absent or falsy gives no
    keyword; any other value is no list of strings. *)
Lemma parse_keywords_cases targetKeywords :
  as_string_array (parse_keywords targetKeywords) =
    match targetKeywords with
    | JStr s => Some (List.map trim (split_unit "," [] s))
    | JArr items => mapM as_string items
    | Undefined | Null | JBool false | JNum 0 => Some []
    | JBool true | JNum _ | JObj _ => None
    end.
Proof.
  destruct targetKeywords as [| |[]|[]|s|items|fields]; try reflexivity.
  unfold parse_keywords, as_string_array. apply mapM_as_string_JStr.
Qed.

(** X12. [crawlWebsiteDirectly] always returns and never touches the
    database.  Its first log line prints the URL: on a URL that does not
    convert to a string it returns [null] without calling [fetch].
    Otherwise it calls [fetch] once and reads the body only of a response
    that is [ok].  It reads the clock only for the timestamp of collected
    data; it returns data exactly when the URL converts, the response is
    [ok], its body is read and the keywords are an array of strings. *)
Theorem crawl_collects_iff env url kws w :
  exists r w',
    crawlWebsiteDirectly env url kws w = (inr r, w') /\
    db w' = db w /\
    calls w' = calls w ++
                 (if stringifies url then
                    CallFetch url ::
                      match fetch env url with
                      | inr response => if ok response then [CallResponseText] else []
                      | inl _ => []
                      end
                  else []) /\
    readings w' = (crawl_reads r + readings w)%nat /\
    (is_Some r <->
     stringifies url = true /\
     exists response html targetKeywords,
       fetch env url = inr response /\ ok response = true /\
       text response = inr html /\ as_string_array kws = Some targetKeywords).
Proof.
  destruct w as [d n cs0].
  unfold crawlWebsiteDirectly, try_catch, bind, console_log, template_literal,
    invoke, lift, Date_toISOString, Date_now, ret, log, analyze_keywords.
  cbn [forallb db readings calls].
  destruct (stringifies url) eqn:Es; cbn.
  2:{ eexists _, _. split; [reflexivity|]. cbn. rewrite app_nil_r.
      do 3 (split; [reflexivity|]). split.
      - intros [x [=]].
      - intros ([=] & _). }
  destruct (fetch env url) as [e|resp] eqn:Ef; cbn.
  { eexists _, _. split; [reflexivity|]. cbn.
    do 3 (split; [reflexivity|]). split.
    - intros [x [=]].
    - intros (_ & r' & h & k & [=] & _). }
  destruct (ok resp) eqn:Eok; cbn.
  2:{ eexists _, _. split; [reflexivity|]. cbn.
      do 3 (split; [reflexivity|]). split.
      - intros [x [=]].
      - intros (_ & r' & h & k & [= <-] & H & _). congruence. }
  destruct (text resp) as [e|html] eqn:Et; cbn.
  { eexists _, _. split; [reflexivity|]. cbn. rewrite <- app_assoc.
    do 3 (split; [reflexivity|]). split.
    - intros [x [=]].
    - intros (_ & r' & h & k & [= <-] & _ & H & _). congruence. }
  destruct (as_string_array kws) as [ks|] eqn:Ek; cbn.
  - eexists _, _. split; [reflexivity|]. cbn. rewrite <- app_assoc.
    do 3 (split; [reflexivity|]). split; [|eauto].
    intros _. split; [reflexivity|]. exists resp, html, ks. auto.
  - eexists _, _. split; [reflexivity|]. cbn. rewrite <- app_assoc.
    do 3 (split; [reflexivity|]). split.
    + intros [x [=]].
    + intros (_ & r' & h & k & _ & _ & _ & [=]).
Qed.

(** X13. What collected data holds: the URL asked for, the title and the
    first 5000 units of the text extracted from the fetched page, the full
    length of that text, the method [direct_fetch] and the time of the clock
    reading; so the length of the content is the smaller of 5000 and the
    content length recorded. *)
Theorem crawl_data_fields env url kws w data w' :
  crawlWebsiteDirectly env url kws w = (inr (Some data), w') ->
  exists response html,
    fetch env url = inr response /\ text response = inr html /\
    Crawler.url data = url /\
    title data = extractTitle html /\
    content data = substring0 5000 (extractTextFromHTML html) /\
    md_contentLength (metadata data) = Z.of_nat (length (extractTextFromHTML html)) /\
    Z.of_nat (length (content data)) = Z.min 5000 (md_contentLength (metadata data)) /\
    md_extractionMethod (metadata data) = ("direct_fetch"%string : jsstring) /\
    md_timestamp (metadata data) = toISOString env (clock env (readings w)).
Proof.
  intros E.
  destruct (crawl_inversion _ _ _ _ _ _ E)
    as (Es & resp & html & ks & Ef & Eok & Et & Ek).
  pose proof (crawl_collects env url kws w resp html ks Es Ef Eok Et Ek) as Hc.
  rewrite E in Hc. cbn [fst] in Hc. injection Hc as ->.
  exists resp, html. cbn [Crawler.url title content metadata md_contentLength
                          md_extractionMethod md_timestamp].
  repeat split; try assumption.
  unfold substring0. rewrite length_take. lia.
Qed.

(** X14. With a [targetKeywords] that is no string, not falsy and no array of
    strings (a number, [true], an object, an array with a number in it), the
    crawl returns [null] in every environment, also when the page was
    fetched. *)
Theorem crawl_keywords_ill_typed env url targetKeywords w :
  as_string_array (parse_keywords targetKeywords) = None ->
  exists w',
    crawlWebsiteDirectly env url (parse_keywords targetKeywords) w = (inr None, w').
Proof.
  intros Hk.
  destruct (crawl_run env url (parse_keywords targetKeywords) w) as (E & _ & _).
  destruct (fst (crawl_outcome env url (parse_keywords targetKeywords) (readings w)))
    as [d|] eqn:Er; [|eexists; exact E].
  apply crawl_inversion in E as (_ & resp & html & ks & _ & _ & _ & Hks). congruence.
Qed.

Context `{!JobDb D}.


(** X16. When [updateJobStatus] is reached, on a body whose job id and URL
    are truthy and convert to strings, and throws, the endpoint answers 500
    with the message of the thrown error, and stops: nothing is fetched and
    nothing is saved. *)
Theorem POST_status_refused env payload jobId url targetKeywords w error s1 :
  destructure payload = inr (jobId, url, targetKeywords) ->
  truthy jobId = true -> truthy url = true ->
  stringifies jobId = true -> stringifies url = true ->
  updateJobStatus jobId PROCESSING (db w) = (inl error, s1) ->
  POST env (inr payload) w =
    (inr {| statusCode := 500;
            body := CrawlFailed "Website crawl failed"%string
                      (error_message "Unknown error"%string error) |},
     {| db := s1; readings := readings w;
        calls := calls w ++ [CallRequestJson; CallUpdateJobStatus jobId PROCESSING] |}).
Proof.
  intros Hd Hj Hu Hsj Hsu E.
  destruct (POST_valid_run env payload jobId url targetKeywords w Hd Hj Hu Hsj Hsu)
    as (a1 & s1' & E1 & H).
  rewrite E in E1. injection E1 as <- <-. exact H.
Qed.

(** X17. When [saveJobData] is reached, on a body whose job id and URL are
    truthy and convert to strings and after a status write that returned,
    and throws, the endpoint answers 500 with the message of the thrown
    error; the status stays as [updateJobStatus] left it. *)
Theorem POST_save_refused env payload jobId url targetKeywords w error s1 :
  destructure payload = inr (jobId, url, targetKeywords) ->
  truthy jobId = true -> truthy url = true ->
  stringifies jobId = true -> stringifies url = true ->
  updateJobStatus jobId PROCESSING (db w) = (inr tt, s1) ->
  (forall data, exists s2, saveJobData jobId "website"%string data s1 = (inl error, s2)) ->
  exists w' fetched data,
    POST env (inr payload) w =
      (inr {| statusCode := 500;
              body := CrawlFailed "Website crawl failed"%string
                        (error_message "Unknown error"%string error) |}, w') /\
    calls w' = calls w ++ [CallRequestJson; CallUpdateJobStatus jobId PROCESSING]
                 ++ fetched ++ [CallSaveJobData jobId "website"%string data] /\
    saveJobData jobId "website"%string data s1 = (inl error, db w').
Proof.
  intros Hd Hj Hu Hsj Hsu E Hsave.
  destruct (POST_valid_run env payload jobId url targetKeywords w Hd Hj Hu Hsj Hsu)
    as (a1 & s1' & E1 & H).
  rewrite E in E1. injection E1 as <- <-.
  destruct H as (a2 & s2 & E2 & H).
  destruct (Hsave (crawl_record env url
              (fst (crawl_outcome env url (parse_keywords targetKeywords) (readings w)))
              (readings w))) as [s2' E2'].
  rewrite E2' in E2. injection E2 as <- <-.
  eexists _, _, _. split; [exact H|]. split; [reflexivity|exact E2'].
Qed.

(** X18. A body that cannot be read, and the body [null], are answered with
    500 and the message of what was thrown ([Unknown error] when that is no
    [Error]); the database is not called. *)
Theorem POST_unreadable_body env request error w :
  request = inl error
  \/ (request = inr Null /\
      error = TypeError
        "Cannot destructure property 'jobId' of '(intermediate value)' as it is null."%string) ->
  POST env request w =
    (inr {| statusCode := 500;
            body := CrawlFailed "Website crawl failed"%string
                      (error_message "Unknown error"%string error) |},
     {| db := db w; readings := readings w; calls := calls w ++ [CallRequestJson] |}).
Proof.
  intros [-> | [-> ->]]; apply POST_unreadable; [left; reflexivity|].
  right. exists Null. split; reflexivity.
Qed.

(** X21. A body whose job id and URL are truthy, one of them not
    converting to a string (an object with an own property [toString], or an
    array that holds one), is answered with 500 and the message of the
    [TypeError]: the log line of the handler throws before the status write,
    so the database is not called, nothing is fetched and the clock is not
    read. *)
Theorem POST_log_line_throws env payload jobId url targetKeywords w :
  destructure payload = inr (jobId, url, targetKeywords) ->
  truthy jobId = true -> truthy url = true ->
  stringifies jobId = false \/ stringifies url = false ->
  POST env (inr payload) w =
    (inr {| statusCode := 500;
            body := CrawlFailed "Website crawl failed"%string
                      "Cannot convert object to primitive value"%string |},
     {| db := db w; readings := readings w; calls := calls w ++ [CallRequestJson] |}).
Proof.
  intros Hd Hj Hu Hs.
  apply (POST_unprintable env payload jobId url targetKeywords w Hd Hj Hu).
  destruct Hs as [-> | ->]; [reflexivity|apply andb_false_r].
Qed.

End CollectorMore.

Section EndpointCases.
Context {D : Type} `{!JobDb D}.
Implicit Types (env : Env) (w : World D) (url kws payload jobId : JsVal).

Lemma crawl_outcome_data env url kws n data :
  fst (crawl_outcome env url kws n) = Some data ->
  Crawler.url data = url /\ (length (content data) <= 5000)%nat.
Proof.
  intros H.
  destruct (crawl_run (D := unit) env url kws {| db := tt; readings := n; calls := [] |})
    as (E & _). cbn [readings] in E. rewrite H in E.
  destruct (crawl_inversion _ _ _ _ _ _ E)
    as (Es & resp & html & ks & Ef & Eok & Et & Ek).
  pose proof (crawl_collects env url kws {| db := tt; readings := n; calls := [] |}
                resp html ks Es Ef Eok Et Ek) as Hc.
  rewrite E in Hc. cbn [fst] in Hc. injection Hc as ->.
  cbn [Crawler.url content]. split; [reflexivity|]. apply List.firstn_le_length.
Qed.

(** X19. Every run of the endpoint answers, with 200, 400 or 500.  It answers
    400 exactly when the body is read, is not [null], and its [jobId] or its
    [websiteUrl] is absent or falsy, and then it calls nothing and leaves the
    database as it was.  After the reading of the body it makes no call, or
    the status write alone, or the status write followed by the calls of the
    crawl and one save for [website]; it answers 200 only in the last
    case. *)
Theorem POST_cases env request w :
  exists response w' cs,
    POST env request w = (inr response, w') /\
    calls w' = calls w ++ CallRequestJson :: cs /\
    endpoint_calls cs /\
    (statusCode response = 200 \/ statusCode response = 400
     \/ statusCode response = 500) /\
    (statusCode response = 400 <->
     exists payload jobId url targetKeywords,
       request = inr payload /\
       destructure payload = inr (jobId, url, targetKeywords) /\
       (truthy jobId = false \/ truthy url = false)) /\
    (statusCode response = 400 -> cs = [] /\ db w' = db w) /\
    (statusCode response = 200 ->
     exists before jobId data,
       cs = before ++ [CallSaveJobData jobId "website"%string data]).
Proof.
  destruct request as [e|payload].
  { eexists _, _, []. split; [apply (POST_unreadable env (inl e) e); auto|].
    cbn. split; [reflexivity|]. split; [constructor|]. split; [auto|].
    split; [|split; discriminate]. split; [discriminate|].
    intros (p & j & u & t & [=] & _). }
  destruct (destructure payload) as [e|[[jobId url] targetKeywords]] eqn:Hd.
  { eexists _, _, []. split; [apply (POST_unreadable env (inr payload) e); eauto|].
    cbn. split; [reflexivity|]. split; [constructor|]. split; [auto|].
    split; [|split; discriminate]. split; [discriminate|].
    intros (p & j & u & t & [= <-] & Hd' & _). congruence. }
  destruct (truthy jobId) eqn:Hj; [destruct (truthy url) eqn:Hu|].
  - assert (Hno : ~ exists p j u t,
               inr payload = inr p (A := Thrown) /\ destructure p = inr (j, u, t)
               /\ (truthy j = false \/ truthy u = false)).
    { intros (p & j & u & t & [= <-] & Hd' & Hf). rewrite Hd in Hd'.
      injection Hd' as <- <- <-. destruct Hf; congruence. }
    destruct (stringifies jobId && stringifies url) eqn:Hs.
    2:{ eexists _, _, [].
        split; [apply (POST_unprintable env payload jobId url targetKeywords w Hd Hj Hu Hs)|].
        cbn. split; [reflexivity|]. split; [constructor|]. split; [auto|].
        split; [|split; discriminate]. split; [discriminate|].
        intros H'. destruct (Hno H'). }
    apply andb_true_iff in Hs as [Hsj Hsu].
    destruct (POST_valid_run env payload jobId url targetKeywords w Hd Hj Hu Hsj Hsu)
      as (a1 & s1 & E1 & H).
    destruct a1 as [e|[]].
    + eexists _, _, [_]. split; [exact H|]. cbn.
      split; [reflexivity|]. split; [constructor|]. split; [auto|].
      split; [|split; discriminate]. split; [discriminate|]. intros H'. destruct (Hno H').
    + destruct H as (a2 & s2 & E2 & H).
      destruct (crawl_run env url (parse_keywords targetKeywords) w) as (_ & F & _).
      eexists _, _, (_ :: _ ++ [_]). split; [exact H|]. cbn [calls].
      split; [reflexivity|]. split; [apply (calls_saved jobId url); exact F|].
      assert (Hcode : statusCode (match a2 with
                                  | inl error => failed_response error
                                  | inr _ => crawl_response url
                                      (fst (crawl_outcome env url
                                              (parse_keywords targetKeywords)
                                              (readings w)))
                                  end) <> 400).
      { destruct a2 as [e|[]]; [discriminate|].
        destruct (fst (crawl_outcome _ _ _ _)); discriminate. }
      split; [|split; [|split]].
      * destruct a2 as [e|[]]; [auto|].
        destruct (fst (crawl_outcome _ _ _ _)); auto.
      * split; [intros H'; destruct (Hcode H')|intros H'; destruct (Hno H')].
      * intros H'. destruct (Hcode H').
      * intros _. eexists (_ :: _), _, _. reflexivity.
  - eexists _, _, [].
    split; [apply (POST_falsy_field env payload jobId url targetKeywords w Hd); auto|].
    cbn. split; [reflexivity|]. split; [constructor|]. split; [auto|].
    split; [|split; [auto|discriminate]]. split; [|reflexivity].
    intros _. exists payload, jobId, url, targetKeywords. auto.
  - eexists _, _, [].
    split; [apply (POST_falsy_field env payload jobId url targetKeywords w Hd); auto|].
    cbn. split; [reflexivity|]. split; [constructor|]. split; [auto|].
    split; [|split; [auto|discriminate]]. split; [|reflexivity].
    intros _. exists payload, jobId, url, targetKeywords. auto.
Qed.

(** X20. The summary the endpoint answers with is that of the record it has
    just saved: the same URL and title, the length of the saved content (at
    most 5000), the sizes of the saved lists, and as preview the first 200
    units of the saved content followed by three dots. *)
Theorem POST_summary_of_saved env request w code success message summary w' :
  POST env request w =
    (inr {| statusCode := code; body := Completed success message summary |}, w') ->
  code = 200 /\ success = true /\
  exists before jobId data,
    calls w' = before ++ [CallSaveJobData jobId "website"%string (Collected data)] /\
    s_url summary = Crawler.url data /\
    s_title summary = title data /\
    s_contentLength summary = Z.of_nat (length (content data)) /\
    s_contentLength summary <= 5000 /\
    s_valuePropositions summary = Z.of_nat (length (valuePropositions data)) /\
    s_features summary = Z.of_nat (length (features data)) /\
    s_benefits summary = Z.of_nat (length (benefits data)) /\
    s_keywords summary = Z.of_nat (length (keywords data)) /\
    s_preview summary = substring0 200 (content data) ++ ("..."%string : jsstring) /\
    (length (s_preview summary) <= 203)%nat.
Proof.
  intros E.
  destruct request as [e|payload].
  { rewrite (POST_unreadable env (inl e) e) in E by auto. discriminate E. }
  destruct (destructure payload) as [e|[[jobId url] targetKeywords]] eqn:Hd.
  { rewrite (POST_unreadable env (inr payload) e) in E by eauto. discriminate E. }
  destruct (truthy jobId) eqn:Hj; [destruct (truthy url) eqn:Hu|].
  2,3: rewrite (POST_falsy_field env payload jobId url targetKeywords w Hd) in E by auto;
       discriminate E.
  destruct (stringifies jobId && stringifies url) eqn:Hs.
  2:{ rewrite (POST_unprintable env payload jobId url targetKeywords w Hd Hj Hu Hs) in E.
      discriminate E. }
  apply andb_true_iff in Hs as [Hsj Hsu].
  destruct (POST_valid_run env payload jobId url targetKeywords w Hd Hj Hu Hsj Hsu)
    as (a1 & s1 & E1 & H).
  destruct a1 as [e|[]]; [rewrite H in E; discriminate E|].
  destruct H as (a2 & s2 & E2 & H). rewrite H in E. clear H.
  destruct a2 as [e|[]]; [discriminate E|].
  destruct (fst (crawl_outcome env url (parse_keywords targetKeywords) (readings w)))
    as [d|] eqn:Er; [|discriminate E].
  destruct (crawl_outcome_data _ _ _ _ _ Er) as [Hurl Hlen].
  cbn [crawl_response crawl_record] in E. injection E as <- <- <- <- <-.
  split; [reflexivity|]. split; [reflexivity|].
  eexists (calls w ++ _ :: _ :: _), jobId, d.
  cbn [calls s_url s_title s_contentLength s_valuePropositions s_features s_benefits
       s_keywords s_preview].
  split.
  { rewrite <- app_assoc. reflexivity. }
  rewrite Hurl. repeat split; try reflexivity; try lia.
  rewrite length_app. unfold substring0.
  pose proof (List.firstn_le_length 200 (content d)) as Hp.
  cbn [length]. revert Hp. generalize (length (firstn 200 (content d))). lia.
Qed.

End EndpointCases.

(** ** Concrete runs of the further properties *)

(** A database without state that accepts or refuses each of the two
    writes. *)
Definition ex_db (status_ok save_ok : bool) : JobDb unit :=
  {| updateJobStatus := fun _ _ s =>
       (if status_ok then inr tt else inl (ThrownError "connection refused"%string), s);
     saveJobData := fun _ _ _ s =>
       (if save_ok then inr tt else inl (ThrownError "connection refused"%string), s) |}.

Section MoreExamples.

(** The theorem of X1 at the sentence of [ex_content]. *)
Lemma extractSentencesWithWords_verbatim_witness :
  let s : jsstring := "This product is something that comes with"%string in
  s ∈ extractSentencesWithWords ex_content [("with "%string : jsstring)] /\
  includes ex_content s = true /\ trim s = s.
Proof.
  assert (H : ("This product is something that comes with"%string : jsstring)
              ∈ extractSentencesWithWords ex_content [("with "%string : jsstring)]).
  { apply list_elem_of_In. vm_compute. left. reflexivity. }
  split; [exact H|].
  destruct (extractSentencesWithWords_verbatim ex_content _ _ H) as (H1 & H2 & _).
  split; [exact H1|exact H2].
Defined.

(** The theorem of X2 at a content of ten units. *)
Lemma extractSentencesWithWords_nothing_witness :
  (length ("Best mats."%string : jsstring) <= 30)%nat /\
  extractSentencesWithWords "Best mats."%string valueWords = [].
Proof.
  assert (H : (length ("Best mats."%string : jsstring) <= 30)%nat) by (simpl; lia).
  split; [exact H|].
  apply (extractSentencesWithWords_nothing "Best mats."%string valueWords (or_intror H)).
Defined.

(** The theorem of X4 at a word. *)
Lemma extractTextFromHTML_plain_witness :
  extractTextFromHTML "Grounding-sheets"%string = ("Grounding-sheets"%string : jsstring).
Proof.
  apply (extractTextFromHTML_plain "Grounding-sheets"%string).
  repeat constructor; discriminate.
Defined.

(** The theorem of X13 at a crawl of [ex_page]. *)
Lemma crawl_data_fields_witness :
  exists data w',
    crawlWebsiteDirectly (D := unit) (ex_env_up ex_now) ex_url
      (parse_keywords (JStr "mat, silver"%string)) (world0 tt) = (inr (Some data), w')
    /\ Crawler.url data = ex_url
    /\ Z.of_nat (length (content data)) = Z.min 5000 (md_contentLength (metadata data)).
Proof.
  destruct (crawlWebsiteDirectly (D := unit) (ex_env_up ex_now) ex_url
              (parse_keywords (JStr "mat, silver"%string)) (world0 tt))
    as [[e|[data|]] w'] eqn:E.
  - exfalso. vm_compute in E. discriminate E.
  - exists data, w'. split; [reflexivity|].
    destruct (crawl_data_fields _ _ _ _ _ _ E)
      as (resp & html & _ & _ & Hu & _ & _ & _ & Hm & _).
    split; [exact Hu|exact Hm].
  - exfalso. vm_compute in E. discriminate E.
Defined.

(** The theorem of X14 at the keywords [5], on a page that is served. *)
Lemma crawl_keywords_ill_typed_witness :
  as_string_array (parse_keywords (JNum 5)) = None /\
  exists w',
    crawlWebsiteDirectly (ex_env_up ex_now) ex_url (parse_keywords (JNum 5))
      (world0 ex_store) = (inr None, w').
Proof.
  split; [reflexivity|].
  apply (crawl_keywords_ill_typed (ex_env_up ex_now) ex_url (JNum 5) (world0 ex_store)).
  reflexivity.
Defined.


(** The theorem of X16 at a database that refuses the status write. *)
Lemma POST_status_refused_witness :
  @POST unit (ex_db false false) (ex_env_up ex_now) (inr ex_payload) (world0 tt) =
    (inr {| statusCode := 500;
            body := CrawlFailed "Website crawl failed"%string
                      "connection refused"%string |},
     {| db := tt; readings := 0;
        calls := [CallRequestJson; CallUpdateJobStatus ex_job PROCESSING] |}).
Proof.
  apply (@POST_status_refused unit (ex_db false false) (ex_env_up ex_now) ex_payload
           ex_job ex_url (JStr "mat, silver"%string) (world0 tt)
           (ThrownError "connection refused"%string) tt
           eq_refl eq_refl eq_refl eq_refl eq_refl eq_refl).
Defined.

(** The theorem of X17 at a database that refuses the save. *)
Lemma POST_save_refused_witness :
  exists w',
    @POST unit (ex_db true false) (ex_env_up ex_now) (inr ex_payload) (world0 tt) =
      (inr {| statusCode := 500;
              body := CrawlFailed "Website crawl failed"%string
                        "connection refused"%string |}, w').
Proof.
  destruct (@POST_save_refused unit (ex_db true false) (ex_env_up ex_now) ex_payload
              ex_job ex_url (JStr "mat, silver"%string) (world0 tt)
              (ThrownError "connection refused"%string) tt
              eq_refl eq_refl eq_refl eq_refl eq_refl eq_refl
              (fun data => ex_intro _ tt eq_refl))
    as (w' & fetched & data & E & _).
  exists w'. exact E.
Defined.

(** The theorem of X18 at a body that is no JSON. *)
Lemma POST_unreadable_body_witness :
  @POST unit (ex_db true true) ex_env_down
    (inl (ThrownError "Unexpected end of JSON input"%string)) (world0 tt) =
    (inr {| statusCode := 500;
            body := CrawlFailed "Website crawl failed"%string
                      "Unexpected end of JSON input"%string |},
     {| db := tt; readings := 0; calls := [CallRequestJson] |}).
Proof.
  apply (@POST_unreadable_body unit (ex_db true true) ex_env_down
           (inl (ThrownError "Unexpected end of JSON input"%string))
           (ThrownError "Unexpected end of JSON input"%string) (world0 tt)).
  left. reflexivity.
Defined.

(** The theorem of X20 at a run that collects [ex_page]. *)
Lemma POST_summary_of_saved_witness :
  exists code success message summary w',
    @POST unit (ex_db true true) (ex_env_up ex_now) (inr ex_payload) (world0 tt) =
      (inr {| statusCode := code; body := Completed success message summary |}, w')
    /\ code = 200 /\ success = true /\ s_contentLength summary <= 5000.
Proof.
  destruct (@POST unit (ex_db true true) (ex_env_up ex_now) (inr ex_payload) (world0 tt))
    as [[e|[code [m|s m u l|success message summary|m d]]] w'] eqn:E;
    try (exfalso; vm_compute in E; discriminate E).
  exists code, success, message, summary, w'. split; [reflexivity|].
  destruct (POST_summary_of_saved _ _ _ _ _ _ _ _ E)
    as (Hc & Hs & before & jobId & data & _ & _ & _ & _ & Hl & _).
  auto.
Defined.

(** The theorem of X21 at a job id that is an object with a property
    [toString]. *)
Lemma POST_log_line_throws_witness :
  let payload :=
    JObj [ ("jobId"%string : jsstring, JObj [("toString"%string : jsstring, JNum 1)]);
           ("websiteUrl"%string : jsstring, ex_url) ] in
  @POST unit (ex_db true true) (ex_env_up ex_now) (inr payload) (world0 tt) =
    (inr {| statusCode := 500;
            body := CrawlFailed "Website crawl failed"%string
                      "Cannot convert object to primitive value"%string |},
     {| db := tt; readings := 0; calls := [CallRequestJson] |}).
Proof.
  cbv zeta.
  apply (@POST_log_line_throws unit (ex_db true true) (ex_env_up ex_now)
           (JObj [ ("jobId"%string : jsstring,
                    JObj [("toString"%string : jsstring, JNum 1)]);
                   ("websiteUrl"%string : jsstring, ex_url) ])
           (JObj [("toString"%string : jsstring, JNum 1)]) ex_url Undefined (world0 tt)
           eq_refl eq_refl eq_refl (or_introl eq_refl)).
Defined.

End MoreExamples.
